(** * rust-cache: the file-system cache backend

    A shallow embedding of the two variants of the file-system cache
    backend found in the repository,

      - [src/fsCache/index.ts]  (module [FsCacheIndex], lookup [getCacheEntry]),
      - the second variant      (module [FsCacheKeyed], lookup [getRestoreKey]),

    and the properties of key validation, key lookup, error classification
    and version fingerprinting that the specification states about them.

    Conventions of the embedding.
      - A JavaScript string is a [string]; one character of the model stands
        for one code unit, so [String.length] is the [.length] property.
      - A computation that can throw and that reports to the log is a value
        of [M A]: its outcome ([Ok] or [Throw]) and the events it emitted.
      - Everything the code obtains from its surroundings (process
        environment, file system, the archive tool, the hash) is a field of
        [Env]; an external call that can fail has its outcome given by the
        environment and leaves an event in the trace. *)

From Stdlib Require Import ZArith Ascii Permutation Sorted.
From stdpp Require Import base strings list gmap pretty.

Local Open Scope Z_scope.

(** ** Strings and arrays of strings *)

(** [Array.prototype.join] on an array of strings. *)
Fixpoint join (sep : string) (l : list string) : string :=
  match l with
  | [] => EmptyString
  | [x] => x
  | x :: xs => x +:+ sep +:+ join sep xs
  end.

Fixpoint string_forallb (p : ascii → bool) (s : string) : bool :=
  match s with
  | EmptyString => true
  | String c s' => p c && string_forallb p s'
  end.

(** [c] occurs in [s]. *)
Fixpoint occursb (c : ascii) (s : string) : bool :=
  match s with
  | EmptyString => false
  | String d s' => Ascii.eqb d c || occursb c s'
  end.

(** [c.repeat(n)] *)
Fixpoint repeat_char (c : ascii) (n : nat) : string :=
  match n with
  | O => EmptyString
  | S n' => String c (repeat_char c n')
  end.

Definition comma : ascii := ","%char.
Definition bar : ascii := "|"%char.

(** The regular expression [/^[^,]*$/] applied with [test]: the whole input
    consists of code units other than the comma. *)
Definition regex_no_comma_test (key : string) : bool :=
  string_forallb (λ c, negb (Ascii.eqb c comma)) key.

(** An [undefined] array element is joined as the empty string. *)
Definition or_empty (o : option string) : string := default EmptyString o.

(** [a || b] on strings read from the process environment: an unset or empty
    variable gives the fallback. *)
Definition or_else (o : option string) (fallback : string) : string :=
  match o with
  | Some s => if String.eqb s EmptyString then fallback else s
  | None => fallback
  end.

(** ** Thrown values *)

Inductive thrown :=
| JsError (name message : string)    (* an Error object *)
| JsString (s : string).             (* a thrown string primitive *)

(** The [name] property; [undefined] on a string primitive. *)
Definition errName (e : thrown) : option string :=
  match e with
  | JsError n _ => Some n
  | JsString _ => None
  end.

(** [`${e.message}`]. *)
Definition errMessage (e : thrown) : string :=
  match e with
  | JsError _ m => m
  | JsString _ => "undefined"
  end.

(** [`${e}`]. *)
Definition errToString (e : thrown) : string :=
  match e with
  | JsError n m =>
      if String.eqb m EmptyString then n
      else if String.eqb n EmptyString then m
      else n +:+ ": " +:+ m
  | JsString s => s
  end.

(** [class ValidationError extends Error], [class ReserveCacheError extends
    Error]: the constructors set [name]; the class objects' own [name] is
    the class name. *)
Definition ValidationError_name : string := "ValidationError".
Definition ReserveCacheError_name : string := "ReserveCacheError".
Definition ValidationError (message : string) : thrown :=
  JsError ValidationError_name message.
(** [new Error(message)]. *)
Definition Error (message : string) : thrown := JsError "Error" message.

(** [typedError.name === C.name] *)
Definition name_is (e : thrown) (cls : string) : bool :=
  match errName e with
  | Some n => String.eqb n cls
  | None => false
  end.

(** ** Outcomes, events and the monad of computations *)

Inductive result (A : Type) : Type :=
| Ok (a : A)
| Throw (e : thrown).
Arguments Ok {A} a.
Arguments Throw {A} e.

Inductive event :=
| Debug (msg : string)               (* core.debug *)
| Info (msg : string)                (* core.info *)
| Warning (msg : string)             (* core.warning *)
| ConsoleInfo (msg : string)         (* console.info *)
| ConsoleInfoFiles (msg : string) (files : list string)
| ConsoleError (msg : string) (e : thrown)
| Readdir (dir : string)             (* fs/promises readdir *)
| Mkdir (dir : string)               (* fs.promises.mkdir, recursive *)
| ResolvePaths (patterns : list string)
| CreateTar (folder : string) (sources : list string)
| ListTar (archive : string)
| ExtractTar (archive : string)
| FileSize (archive : string)
| Unlink (file : string).

Definition M (A : Type) : Type := (result A * list event)%type.

Definition ret {A} (a : A) : M A := (Ok a, []).
Definition throw {A} (e : thrown) : M A := (Throw e, []).
Definition emit (ev : event) : M unit := (Ok (), [ev]).

Definition bind {A B} (m : M A) (k : A → M B) : M B :=
  match m with
  | (Ok a, t) => let '(r, t') := k a in (r, t ++ t')
  | (Throw e, t) => (Throw e, t)
  end.

(** [try { m } catch (error) { h error }] *)
Definition try_catch {A} (m : M A) (h : thrown → M A) : M A :=
  match m with
  | (Ok a, t) => (Ok a, t)
  | (Throw e, t) => let '(r, t') := h e in (r, t ++ t')
  end.

(** [try { m } finally { f }]: [f] runs on both exits; the outcome of [m]
    stands unless [f] itself throws. *)
Definition try_finally {A} (m : M A) (f : M unit) : M A :=
  let '(r, t) := m in
  match f with
  | (Ok _, t') => (r, t ++ t')
  | (Throw e, t') => (Throw e, t ++ t')
  end.

(** A step that may throw and reports nothing. *)
Definition lift {A} (r : result A) : M A := (r, []).

(** An external call: its outcome comes from the environment, the call
    is recorded. *)
Definition call {A} (ev : event) (outcome : result A) : M A := (outcome, [ev]).

Declare Scope js_scope.
Delimit Scope js_scope with js.
Notation "x <- c1 ;; c2" := (bind c1 (λ x, c2))
  (at level 100, c1 at next level, right associativity) : js_scope.
Notation "c1 ;;; c2" := (bind c1 (λ _, c2))
  (at level 100, right associativity) : js_scope.
Local Open Scope js_scope.

Definition outcome {A} (m : M A) : result A := m.1.
Definition trace {A} (m : M A) : list event := m.2.

(** [for (const x of xs) { body x }] where the body has no early exit. *)
Fixpoint for_of {A} (xs : list A) (body : A → M unit) : M unit :=
  match xs with
  | [] => ret ()
  | x :: xs' => body x ;;; for_of xs' body
  end.

(** ** The surroundings *)

(** The enumeration [CompressionMethod] of [@actions/cache], a string enum. *)
Inductive CompressionMethod := Gzip | ZstdWithoutLong | Zstd.

Definition CompressionMethod_value (c : CompressionMethod) : string :=
  match c with
  | Gzip => "gzip"
  | ZstdWithoutLong => "zstd-without-long"
  | Zstd => "zstd"
  end.

Record Env := {
  (* process *)
  platform : string;
  GITHUB_REPOSITORY : option string;
  INF_RUNNER_CACHE_DIR : option string;
  RUST_CACHE_DIR : option string;
  (* crypto, path, JSON *)
  sha256_hex : string → string;
  path_join : list string → string;
  JSON_stringify : list string → string;
  (* @actions/core *)
  isDebug : bool;
  (* @actions/cache: cacheUtils and tar *)
  getCompressionMethod : CompressionMethod;
  getCacheFileName : CompressionMethod → string;
  resolvePaths_result : list string → result (list string);
  getArchiveFileSizeInBytes_result : string → result Z;
  unlinkFile_result : string → result unit;
  createTar_result : string → list string → CompressionMethod → result unit;
  extractTar_result : string → CompressionMethod → result unit;
  listTar_result : string → CompressionMethod → result unit;
  (* fs: a directory listing, and [statSync(path).mtimeMs], in
     milliseconds, or what [statSync] throws *)
  readdir_result : string → result (list string);
  statSync_result : string → result Z;
  mkdir_result : string → result unit;
}.

(** The modification time that [statSync] reports for [path]; where
    [statSync] throws there is none, and 0 stands in. *)
Definition mtimeMs (env : Env) (path : string) : Z :=
  match statSync_result env path with
  | Ok t => t
  | Throw _ => 0
  end.

Section Calls.
Context (env : Env).

Definition readdir (dir : string) : M (list string) :=
  call (Readdir dir) (readdir_result env dir).
Definition mkdir (dir : string) : M unit :=
  call (Mkdir dir) (mkdir_result env dir).
Definition resolvePaths (patterns : list string) : M (list string) :=
  call (ResolvePaths patterns) (resolvePaths_result env patterns).
Definition createTar (folder : string) (sources : list string)
    (c : CompressionMethod) : M unit :=
  call (CreateTar folder sources) (createTar_result env folder sources c).
Definition listTar (archive : string) (c : CompressionMethod) : M unit :=
  call (ListTar archive) (listTar_result env archive c).
Definition extractTar (archive : string) (c : CompressionMethod) : M unit :=
  call (ExtractTar archive) (extractTar_result env archive c).
Definition getArchiveFileSizeInBytes (archive : string) : M Z :=
  call (FileSize archive) (getArchiveFileSizeInBytes_result env archive).
Definition unlinkFile (file : string) : M unit :=
  call (Unlink file) (unlinkFile_result env file).
End Calls.

(** [Math.round(a / b)] for integers [a >= 0], [b > 0]. *)
Definition Math_round_div (a b : Z) : Z := (2 * a + b) / (2 * b).

(** ** Validation *)

Definition checkPaths (paths : list string) : M unit :=
  if (length paths =? 0)%nat then
    throw (ValidationError
      "Path Validation Error: At least one directory or file path is required")
  else ret ().

Definition checkKey (key : string) : M unit :=
  if (512 <? String.length key)%nat then
    throw (ValidationError
      ("Key Validation Error: " +:+ key +:+
       " cannot be larger than 512 characters."))
  else if negb (regex_no_comma_test key) then
    throw (ValidationError
      ("Key Validation Error: " +:+ key +:+ " cannot contain commas."))
  else ret ().

Definition isFeatureAvailable : bool := true.

Definition versionSalt : string := "1.0".

(** ** The version fingerprint *)

Definition is_win32 (env : Env) : bool := String.eqb (platform env) "win32".

(** The array [components] as it stands when it is joined. *)
Definition versionComponents (env : Env) (paths : list string)
    (compressionMethod : option CompressionMethod)
    (enableCrossOsArchive : bool) : list string :=
  let components := paths in                       (* paths.slice() *)
  let components :=
    match compressionMethod with                   (* if (compressionMethod) *)
    | Some c => components ++ [CompressionMethod_value c]
    | None => components
    end in
  let components :=
    if is_win32 env && negb enableCrossOsArchive
    then components ++ ["windows-only"] else components in
  components ++ [versionSalt].

(** The text that is hashed. *)
Definition versionInput (env : Env) (paths : list string)
    (compressionMethod : option CompressionMethod)
    (enableCrossOsArchive : bool) : string :=
  join "|" (versionComponents env paths compressionMethod enableCrossOsArchive).

Definition getCacheVersion (env : Env) (paths : list string)
    (compressionMethod : option CompressionMethod)
    (enableCrossOsArchive : bool) : string :=
  sha256_hex env
    (versionInput env paths compressionMethod enableCrossOsArchive).

Definition getPrefix (env : Env) (paths : list string)
    (compressionMethod : CompressionMethod)
    (enableCrossOsArchive : bool) : string :=
  let repository := GITHUB_REPOSITORY env in
  let version :=
    getCacheVersion env paths (Some compressionMethod) enableCrossOsArchive in
  join "/" ["cache"; or_empty repository; version].

(** *** The same function over a store of arrays

    The argument of [getCacheVersion] is a reference to an array the caller
    keeps.  Here arrays live in a store, [slice] allocates, [push] updates in
    place, and the function receives the address of [paths]. *)

Abbreviation store := (gmap nat (list string)).

Definition Array_slice (a : nat) (h : store) : nat * store :=
  let b := fresh (dom h) in
  (b, <[b := default [] (h !! a)]> h).

Definition Array_push (a : nat) (x : string) (h : store) : store :=
  alter (λ l, l ++ [x]) a h.

Definition getCacheVersion_store (env : Env) (paths : nat)
    (compressionMethod : option CompressionMethod)
    (enableCrossOsArchive : bool) (h : store) : string * store :=
  let '(components, h) := Array_slice paths h in
  let h :=
    match compressionMethod with
    | Some c => Array_push components (CompressionMethod_value c) h
    | None => h
    end in
  let h :=
    if is_win32 env && negb enableCrossOsArchive
    then Array_push components "windows-only" h else h in
  let h := Array_push components versionSalt h in
  (sha256_hex env (join "|" (default [] (h !! components))), h).

(** ** Sorting a listing *)

(** [Array.prototype.sort(cmp)]: the stable arrangement in which [a] comes
    before [b] whenever [cmp a b < 0]. *)
Fixpoint sort_insert (cmp : string → string → Z) (x : string)
    (l : list string) : list string :=
  match l with
  | [] => [x]
  | y :: l' =>
      if cmp x y <=? 0 then x :: y :: l' else y :: sort_insert cmp x l'
  end.

Definition Array_sort (cmp : string → string → Z) (l : list string)
  : list string :=
  foldr (sort_insert cmp) [] l.

(** The same with a comparator that may throw: what it throws leaves [sort].
    Which pairs an engine compares, and so which error leaves first when
    several comparisons would throw, is the engine's affair; that some error
    leaves as soon as one comparison would throw is not.  Here the
    comparisons are those of the insertion above. *)
Fixpoint sort_insert_fallible (cmp : string → string → result Z) (x : string)
    (l : list string) : result (list string) :=
  match l with
  | [] => Ok [x]
  | y :: l' =>
      match cmp x y with
      | Throw e => Throw e
      | Ok d =>
          if d <=? 0 then Ok (x :: y :: l')
          else
            match sort_insert_fallible cmp x l' with
            | Ok s => Ok (y :: s)
            | Throw e => Throw e
            end
      end
  end.

Fixpoint Array_sort_fallible (cmp : string → string → result Z)
    (l : list string) : result (list string) :=
  match l with
  | [] => Ok []
  | x :: l' =>
      match Array_sort_fallible cmp l' with
      | Ok s => sort_insert_fallible cmp x s
      | Throw e => Throw e
      end
  end.

Record ArtifactCacheEntry := {
  cacheKey : string;
  archiveLocation : string;
}.

(** The directory listings a computation asked for, in order. *)
Fixpoint consulted (t : list event) : list string :=
  match t with
  | [] => []
  | Readdir dir :: t' => dir :: consulted t'
  | _ :: t' => consulted t'
  end.

(** The message of the error [saveCache] throws when nothing resolves. *)
Definition no_paths_message : string :=
  "Path Validation Error: Path(s) specified in the action for caching do(es) not exist, hence no cache is being saved.".

(** ** Variant [src/fsCache/index.ts] *)

Module FsCacheIndex.
Section WithEnv.
Context (env : Env).

Definition cacheDir : string :=
  or_else (INF_RUNNER_CACHE_DIR env) "/var/local/inf_runner_cache".

Definition restoreDirOf (paths : list string)
    (compressionMethod : CompressionMethod) (enableCrossOsArchive : bool)
    (restoreKey : string) : string :=
  let prefix := getPrefix env paths compressionMethod enableCrossOsArchive in
  join "/" [cacheDir; prefix; restoreKey].

(** The comparator handed to [sort]: it stats [a], then [b], and either
    call may throw. *)
Definition byMtime (restoreDir a b : string) : result Z :=
  match statSync_result env (join "/" [restoreDir; a]) with
  | Throw e => Throw e
  | Ok aMtimeMs =>
      match statSync_result env (join "/" [restoreDir; b]) with
      | Throw e => Throw e
      | Ok bMtimeMs => Ok (aMtimeMs - bMtimeMs)
      end
  end.

(** The body of the [try] for one key: [Some entry] when it returns from
    the function, [None] when it falls through to the next key. *)
Definition probe (restoreDir : string) : M (option ArtifactCacheEntry) :=
  files <- readdir env restoreDir ;;
  if (0 <? length files)%nat then
    sortedKeys <- lift (Array_sort_fallible (byMtime restoreDir) files) ;;
    ret (Some {| cacheKey := or_empty (sortedKeys !! 0%nat);
                 archiveLocation := restoreDir |})
  else ret None.

Fixpoint getCacheEntry (keys paths : list string)
    (compressionMethod : CompressionMethod) (enableCrossOsArchive : bool)
  : M (option ArtifactCacheEntry) :=
  match keys with
  | [] => ret None                                (* return cacheEntry *)
  | restoreKey :: keys' =>
      let restoreDir :=
        restoreDirOf paths compressionMethod enableCrossOsArchive
          restoreKey in
      returned <-
        try_catch (probe restoreDir)
          (λ error,
             emit (ConsoleError
               ("Error listing objects with prefix " +:+ restoreKey) error)
             ;;; ret None) ;;
      match returned with
      | Some entry => ret (Some entry)
      | None =>
          getCacheEntry keys' paths compressionMethod enableCrossOsArchive
      end
  end.

(** The body of the [try] of [restoreCache]. *)
Definition restoreBody (keys paths : list string)
    (compressionMethod : CompressionMethod) (enableCrossOsArchive : bool)
  : M (option string) :=
  cacheEntry <-
    getCacheEntry keys paths compressionMethod enableCrossOsArchive ;;
  match cacheEntry with
  | None => throw (JsString "cache entry not found")
  | Some cacheEntry =>
      let archivePath :=
        join "/" [archiveLocation cacheEntry; cacheKey cacheEntry] in
      emit (Debug ("Archive Path: " +:+ archivePath)) ;;;
      (if isDebug env then listTar env archivePath compressionMethod
       else ret ()) ;;;
      archiveFileSize <- getArchiveFileSizeInBytes env archivePath ;;
      emit (Info ("Cache Size: ~" +:+
                  pretty (Math_round_div archiveFileSize (1024 * 1024))
                  +:+ " MB (" +:+ pretty archiveFileSize +:+ " B)")) ;;;
      extractTar env archivePath compressionMethod ;;;
      emit (Info "Cache restored successfully") ;;;
      ret (Some (cacheKey cacheEntry))
  end.

(** [restoreKeys] is optional; [None] is a call that leaves it out. The
    result [None] is [undefined]. *)
Definition restoreCache (paths : list string) (primaryKey : string)
    (restoreKeys : option (list string)) (enableCrossOsArchive : bool)
  : M (option string) :=
  checkPaths paths ;;;
  let restoreKeys := default [] restoreKeys in
  let keys := primaryKey :: restoreKeys in
  emit (Debug "Resolved Keys:") ;;;
  emit (Debug (JSON_stringify env keys)) ;;;
  (if (10 <? length keys)%nat then
     throw (ValidationError
       "Key Validation Error: Keys are limited to a maximum of 10.")
   else ret ()) ;;;
  for_of keys checkKey ;;;
  let compressionMethod := getCompressionMethod env in
  try_catch
    (restoreBody keys paths compressionMethod enableCrossOsArchive)
    (λ error,
       if name_is error ValidationError_name then throw error
       else
         emit (Warning ("Failed to restore: " +:+ errMessage error)) ;;;
         ret None).                               (* return undefined *)

(** The body of the [try] of [saveCache]; its value is the new [cacheId]. *)
Definition saveBody (archiveFolder archivePath : string)
    (cachePaths : list string) (compressionMethod : CompressionMethod)
  : M Z :=
  createTar env archiveFolder cachePaths compressionMethod ;;;
  (if isDebug env then listTar env archivePath compressionMethod
   else ret ()) ;;;
  archiveFileSize <- getArchiveFileSizeInBytes env archivePath ;;
  emit (Debug ("File Size: " +:+ pretty archiveFileSize)) ;;;
  ret 1.

(** The [catch] of [saveCache]; [cacheId] keeps its initial value. *)
Definition saveCatch (cacheId : Z) (error : thrown) : M Z :=
  if name_is error ValidationError_name then throw error
  else if name_is error ReserveCacheError_name then
    emit (Info ("Failed to save: " +:+ errMessage error)) ;;; ret cacheId
  else
    emit (Warning ("Failed to save: " +:+ errMessage error)) ;;; ret cacheId.

Definition saveCache (paths : list string) (key : string)
    (enableCrossOsArchive : bool) : M Z :=
  checkPaths paths ;;;
  checkKey key ;;;
  let compressionMethod := getCompressionMethod env in
  let cacheId := -1 in
  cachePaths <- resolvePaths env paths ;;
  emit (Debug "Cache Paths:") ;;;
  emit (Debug (JSON_stringify env cachePaths)) ;;;
  (if (length cachePaths =? 0)%nat then
     throw (Error no_paths_message)
   else ret ()) ;;;
  let prefix := getPrefix env paths compressionMethod enableCrossOsArchive in
  mkdir env cacheDir ;;;
  let archiveFolder := path_join env [cacheDir; prefix; key] in
  let archivePath :=
    path_join env [archiveFolder; getCacheFileName env compressionMethod] in
  emit (Debug ("Archive archiveFolder: " +:+ archiveFolder)) ;;;
  emit (Debug ("Archive Path: " +:+ archivePath)) ;;;
  try_finally
    (try_catch
       (saveBody archiveFolder archivePath cachePaths compressionMethod)
       (saveCatch cacheId))
    (try_catch (unlinkFile env archivePath)
       (λ error,
          emit (Debug ("Failed to delete archive: " +:+ errToString error))))
  (* return cacheId *).

End WithEnv.
End FsCacheIndex.

(** ** The second variant: the lookup answers with the key *)

Module FsCacheKeyed.
Section WithEnv.
Context (env : Env).

Definition cacheDir : string :=
  or_else (RUST_CACHE_DIR env) "/runner/rust_cache".

Definition restoreDirOf (paths : list string)
    (compressionMethod : CompressionMethod) (enableCrossOsArchive : bool)
    (restoreKey : string) : string :=
  let prefix := getPrefix env paths compressionMethod enableCrossOsArchive in
  join "/" [cacheDir; prefix; restoreKey].

(** The body of the [try] for one key: [Some key] when it returns from the
    function, [None] when it falls through to the next key. *)
Definition probe (restoreDir restoreKey : string) : M (option string) :=
  files <- readdir env restoreDir ;;
  emit (ConsoleInfoFiles "reading files " files) ;;;
  if (0 <? length files)%nat then
    emit (ConsoleInfo ("Cache found with prefix " +:+ restoreKey)) ;;;
    ret (Some restoreKey)
  else ret None.

Fixpoint getRestoreKey (keys paths : list string)
    (compressionMethod : CompressionMethod) (enableCrossOsArchive : bool)
  : M (option string) :=
  match keys with
  | [] => ret None                      (* the outer restoreKey, still null *)
  | restoreKey :: keys' =>
      let restoreDir :=
        restoreDirOf paths compressionMethod enableCrossOsArchive
          restoreKey in
      returned <-
        try_catch (probe restoreDir restoreKey)
          (λ _,
             emit (ConsoleInfo ("Cache not found with prefix " +:+ restoreKey))
             ;;; ret None) ;;
      match returned with
      | Some key => ret (Some key)
      | None =>
          getRestoreKey keys' paths compressionMethod enableCrossOsArchive
      end
  end.

(** The body of the [try] of [restoreCache]. *)
Definition restoreBody (keys paths : list string)
    (compressionMethod : CompressionMethod) (enableCrossOsArchive : bool)
  : M (option string) :=
  restoreKey <-
    getRestoreKey keys paths compressionMethod enableCrossOsArchive ;;
  emit (Debug ("Cache entry: " +:+ default "null" restoreKey)) ;;;
  match restoreKey with
  | None => throw (JsString "cache entry not found")
  | Some restoreKey =>
      let prefix :=
        getPrefix env paths compressionMethod enableCrossOsArchive in
      let archiveFolder := join "/" [cacheDir; prefix; restoreKey] in
      let archivePath :=
        path_join env
          [archiveFolder; getCacheFileName env compressionMethod] in
      emit (Debug ("Archive Path: " +:+ archivePath)) ;;;
      (if isDebug env then listTar env archivePath compressionMethod
       else ret ()) ;;;
      archiveFileSize <- getArchiveFileSizeInBytes env archivePath ;;
      emit (Info ("Cache Size: ~" +:+
                  pretty (Math_round_div archiveFileSize (1024 * 1024))
                  +:+ " MB (" +:+ pretty archiveFileSize +:+ " B)")) ;;;
      extractTar env archivePath compressionMethod ;;;
      emit (Info "Cache restored successfully") ;;;
      ret (Some restoreKey)
  end.

Definition restoreCache (paths : list string) (primaryKey : string)
    (restoreKeys : option (list string)) (enableCrossOsArchive : bool)
  : M (option string) :=
  checkPaths paths ;;;
  let restoreKeys := default [] restoreKeys in
  let keys := primaryKey :: restoreKeys in
  emit (Debug "Resolved Keys:") ;;;
  emit (Debug (JSON_stringify env keys)) ;;;
  (if (10 <? length keys)%nat then
     throw (ValidationError
       "Key Validation Error: Keys are limited to a maximum of 10.")
   else ret ()) ;;;
  for_of keys checkKey ;;;
  let compressionMethod := getCompressionMethod env in
  try_catch
    (restoreBody keys paths compressionMethod enableCrossOsArchive)
    (λ error,
       if name_is error ValidationError_name then throw error
       else
         emit (Warning ("Failed to restore: " +:+ errMessage error)) ;;;
         ret None).                                 (* return undefined *)

(** The body of the [try] of [saveCache]; its value is the new [cacheId]. *)
Definition saveBody (archiveFolder archivePath : string)
    (cachePaths : list string) (compressionMethod : CompressionMethod)
  : M Z :=
  createTar env archiveFolder cachePaths compressionMethod ;;;
  (if isDebug env then listTar env archivePath compressionMethod
   else ret ()) ;;;
  archiveFileSize <- getArchiveFileSizeInBytes env archivePath ;;
  emit (Debug ("File Size: " +:+ pretty archiveFileSize)) ;;;
  ret 1.

(** The [catch] of [saveCache]; [cacheId] keeps its initial value. *)
Definition saveCatch (cacheId : Z) (error : thrown) : M Z :=
  if name_is error ValidationError_name then throw error
  else if name_is error ReserveCacheError_name then
    emit (Info ("Failed to save: " +:+ errMessage error)) ;;; ret cacheId
  else
    emit (Warning ("Failed to save: " +:+ errMessage error)) ;;; ret cacheId.

Definition saveCache (paths : list string) (key : string)
    (enableCrossOsArchive : bool) : M Z :=
  checkPaths paths ;;;
  checkKey key ;;;
  let compressionMethod := getCompressionMethod env in
  let cacheId := -1 in
  cachePaths <- resolvePaths env paths ;;
  emit (Debug "Cache Paths:") ;;;
  emit (Debug (JSON_stringify env cachePaths)) ;;;
  (if (length cachePaths =? 0)%nat then
     throw (Error no_paths_message)
   else ret ()) ;;;
  let prefix := getPrefix env paths compressionMethod enableCrossOsArchive in
  let archiveFolder := path_join env [cacheDir; prefix; key] in
  mkdir env archiveFolder ;;;
  let archivePath :=
    path_join env [archiveFolder; getCacheFileName env compressionMethod] in
  emit (Debug ("Archive archiveFolder: " +:+ archiveFolder)) ;;;
  emit (Debug ("Archive Path: " +:+ archivePath)) ;;;
  (* Delete existing tar *)
  try_catch
    (unlinkFile env archivePath ;;; emit (Debug "Deleted existing tar"))
    (λ _, ret ()) ;;;
  try_finally
    (try_catch
       (saveBody archiveFolder archivePath cachePaths compressionMethod)
       (saveCatch cacheId))
    (try_catch
       (let manifestPath := path_join env [archiveFolder; "manifest.txt"] in
        unlinkFile env manifestPath)
       (λ error,
          emit (Debug ("Failed to delete manifest: " +:+ errToString error))))
  (* return cacheId *).

End WithEnv.
End FsCacheKeyed.

(** ** Example surroundings *)

(** A runner on Linux with a working archive tool, over a given file
    system: what listing a directory gives, what [statSync] answers, what the
    patterns resolve to, and whether a directory or an archive can be
    created.  The digest is left as the identity, so that directory names
    can be written out in examples. *)
Definition surroundings
    (listing : string → result (list string)) (stat : string → result Z)
    (resolved : list string → result (list string))
    (mk : string → result unit)
    (mkTar : string → list string → CompressionMethod → result unit)
  : Env := {|
  platform := "linux";
  GITHUB_REPOSITORY := Some "acme/app";
  INF_RUNNER_CACHE_DIR := None;
  RUST_CACHE_DIR := None;
  sha256_hex := λ s, s;
  path_join := join "/";
  JSON_stringify := λ l, "[" +:+ join "," l +:+ "]";
  isDebug := false;
  getCompressionMethod := Zstd;
  getCacheFileName :=
    λ c, match c with Gzip => "cache.tgz" | _ => "cache.tzst" end;
  resolvePaths_result := resolved;
  getArchiveFileSizeInBytes_result := λ _, Ok 3145728;
  unlinkFile_result := λ _, Ok ();
  createTar_result := mkTar;
  extractTar_result := λ _ _, Ok ();
  listTar_result := λ _ _, Ok ();
  readdir_result := listing;
  statSync_result := stat;
  mkdir_result := mk;
|}.

Definition ENOENT : thrown := Error "ENOENT: no such file or directory".
Definition EACCES : thrown := Error "EACCES: permission denied".

(** The backend root does not exist: every listing fails. *)
Definition quiet_env : Env :=
  surroundings (λ _, Throw ENOENT) (λ _, Ok 0) Ok (λ _, Ok ()) (λ _ _ _, Ok ()).

(** None of the patterns resolves to a path. *)
Definition nothing_resolves_env : Env :=
  surroundings (λ _, Throw ENOENT) (λ _, Ok 0) (λ _, Ok [])
    (λ _, Ok ()) (λ _ _ _, Ok ()).

(** The backend root cannot be written to. *)
Definition read_only_env : Env :=
  surroundings (λ _, Throw ENOENT) (λ _, Ok 0) Ok
    (λ _, Throw EACCES) (λ _ _ _, Ok ()).

(** The archive tool fails with [e]. *)
Definition failing_tar_env (e : thrown) : Env :=
  surroundings (λ _, Throw ENOENT) (λ _, Ok 0) Ok
    (λ _, Ok ()) (λ _ _ _, Throw e).

(** A backend in which the directory of key ["k"], for the path list
    [["target"]], holds [files], in either variant's layout; no other
    directory exists. *)
Definition stored_env (files : list string) (mtime : string → Z) : Env :=
  surroundings
    (λ dir,
       if String.eqb dir
            (FsCacheIndex.restoreDirOf quiet_env ["target"] Zstd false "k")
          || String.eqb dir
               (FsCacheKeyed.restoreDirOf quiet_env ["target"] Zstd false "k")
       then Ok files
       else Throw ENOENT)
    (λ path, Ok (mtime path)) Ok (λ _, Ok ()) (λ _ _ _, Ok ()).

(** Modification times for a directory with an older and a newer child. *)
Definition old_new_mtime (file : string) : Z :=
  if String.eqb file
       (join "/" [FsCacheIndex.restoreDirOf quiet_env ["target"] Zstd false "k";
                  "new"])
  then 2000 else 1000.

Definition old_new_env : Env := stored_env ["old"; "new"] old_new_mtime.

(** A backend that holds one archive under key ["k"]. *)
Definition one_archive_env : Env := stored_env ["cache.tzst"] (λ _, 0).

(** ** Predicates used in the statements *)

Definition raises_ValidationError {A} (m : M A) : Prop :=
  ∃ message, outcome m = Throw (ValidationError message).

(** Listing [dir] succeeds and gives at least one child. *)
Definition listing_yields (env : Env) (dir : string) : bool :=
  match readdir_result env dir with
  | Ok (_ :: _) => true
  | _ => false
  end.

(** [chosen] is a child that no other child was modified after. *)
Definition most_recent_of (mtime : string → Z) (files : list string)
    (chosen : string) : Prop :=
  chosen ∈ files ∧ ∀ f, f ∈ files → mtime f ≤ mtime chosen.

(** [chosen] is a child that no other child was modified before. *)
Definition least_recent_of (mtime : string → Z) (files : list string)
    (chosen : string) : Prop :=
  chosen ∈ files ∧ ∀ f, f ∈ files → mtime chosen ≤ mtime f.


(** The components [getCacheVersion] pushes after the paths. *)
Definition versionTail (env : Env)
    (compressionMethod : option CompressionMethod)
    (enableCrossOsArchive : bool) : list string :=
  versionComponents env [] compressionMethod enableCrossOsArchive.

(** The hash does not make one digest of the two texts [s] and [s']. *)
Definition no_collision (env : Env) (s s' : string) : Prop :=
  sha256_hex env s = sha256_hex env s' → s = s'.

(** Two calls of [getCacheVersion] hash different texts, and so give
    different fingerprints unless the hash collides on those two texts. *)
Definition fingerprints_differ (env : Env)
    (paths : list string) (c : option CompressionMethod)
    (paths' : list string) (c' : option CompressionMethod)
    (cross : bool) : Prop :=
  versionInput env paths c cross ≠ versionInput env paths' c' cross
  ∧ (no_collision env (versionInput env paths c cross)
       (versionInput env paths' c' cross) →
     getCacheVersion env paths c cross ≠ getCacheVersion env paths' c' cross).

(** No [|] in [p]. *)
Definition bar_free (p : string) : Prop := occursb bar p = false.

(** A store in which the caller keeps its path list at address 0 and
    another array at address 1. *)
Definition caller_store : store :=
  <[0%nat := ["src"; "target"]]> (<[1%nat := ["k"; "k-"]]> ∅).

(** A key that [checkKey] lets through. *)
Definition key_ok (key : string) : Prop :=
  (String.length key ≤ 512)%nat ∧ occursb comma key = false.

(** ** Kinds of events *)

(** A line of the log or of the console, as opposed to a call. *)
Definition is_report (ev : event) : bool :=
  match ev with
  | Debug _ | Info _ | Warning _
  | ConsoleInfo _ | ConsoleInfoFiles _ _ | ConsoleError _ _ => true
  | _ => false
  end.

(** The calls a computation made, in order, without the reporting. *)
Definition calls (t : list event) : list event :=
  List.filter (λ ev, negb (is_report ev)) t.

(** A call that creates or removes something in the backend. *)
Definition modifies_backend (ev : event) : bool :=
  match ev with
  | Mkdir _ | CreateTar _ _ | Unlink _ => true
  | _ => false
  end.

(** A call that [restoreCache] alone has a use for. *)
Definition lists_or_unpacks (ev : event) : bool :=
  match ev with
  | Readdir _ | ExtractTar _ => true
  | _ => false
  end.

Definition is_ListTar (ev : event) : bool :=
  match ev with
  | ListTar _ => true
  | _ => false
  end.

Definition is_Readdir (ev : event) : bool :=
  match ev with
  | Readdir _ => true
  | _ => false
  end.

(** No event of the computation satisfies [p]. *)
Definition never {A} (p : event → bool) (m : M A) : Prop :=
  Forall (λ ev, p ev = false) (trace m).

(** The same surroundings in which removing a file answers as [unlink]
    says. *)
Definition with_unlinkFile (env : Env) (unlink : string → result unit)
  : Env := {|
  platform := platform env;
  GITHUB_REPOSITORY := GITHUB_REPOSITORY env;
  INF_RUNNER_CACHE_DIR := INF_RUNNER_CACHE_DIR env;
  RUST_CACHE_DIR := RUST_CACHE_DIR env;
  sha256_hex := sha256_hex env;
  path_join := path_join env;
  JSON_stringify := JSON_stringify env;
  isDebug := isDebug env;
  getCompressionMethod := getCompressionMethod env;
  getCacheFileName := getCacheFileName env;
  resolvePaths_result := resolvePaths_result env;
  getArchiveFileSizeInBytes_result := getArchiveFileSizeInBytes_result env;
  unlinkFile_result := unlink;
  createTar_result := createTar_result env;
  extractTar_result := extractTar_result env;
  listTar_result := listTar_result env;
  readdir_result := readdir_result env;
  statSync_result := statSync_result env;
  mkdir_result := mkdir_result env;
|}.

(** The archive tool works, but the archive under key ["k"] cannot be
    unpacked. *)
Definition corrupt_archive_env (e : thrown) : Env := {|
  platform := "linux";
  GITHUB_REPOSITORY := Some "acme/app";
  INF_RUNNER_CACHE_DIR := None;
  RUST_CACHE_DIR := None;
  sha256_hex := λ s, s;
  path_join := join "/";
  JSON_stringify := λ l, "[" +:+ join "," l +:+ "]";
  isDebug := false;
  getCompressionMethod := Zstd;
  getCacheFileName :=
    λ c, match c with Gzip => "cache.tgz" | _ => "cache.tzst" end;
  resolvePaths_result := Ok;
  getArchiveFileSizeInBytes_result := λ _, Ok 3145728;
  unlinkFile_result := λ _, Ok ();
  createTar_result := λ _ _ _, Ok ();
  extractTar_result := λ _ _, Throw e;
  listTar_result := λ _ _, Ok ();
  readdir_result := readdir_result one_archive_env;
  statSync_result := λ _, Ok 0;
  mkdir_result := λ _, Ok ();
|}.

(** The archive at [archivePath] can be examined: its size can be read, and
    in debug mode its contents can be listed. *)
Definition archive_readable (env : Env) (archivePath : string)
    (c : CompressionMethod) (size : Z) : Prop :=
  (isDebug env = true → listTar_result env archivePath c = Ok ())
  ∧ getArchiveFileSizeInBytes_result env archivePath = Ok size.

(** The order the comparator of [getCacheEntry] gives when no [statSync]
    throws. *)
Definition mtimeOrder (env : Env) (dir a b : string) : Z :=
  mtimeMs env (join "/" [dir; a]) - mtimeMs env (join "/" [dir; b]).

(** [statSync] succeeds on every child of [dir] in [files]. *)
Definition statable (env : Env) (dir : string) (files : list string) : bool :=
  forallb
    (λ f, match statSync_result env (join "/" [dir; f]) with
          | Ok _ => true
          | Throw _ => false
          end)
    files.

(** The sort of [getCacheEntry] goes through on [files]: there is a single
    child, which is never compared, or every child can be stat'ed. *)
Definition sortable (env : Env) (dir : string) (files : list string) : bool :=
  match files with
  | [_] => true
  | _ => statable env dir files
  end.

(** The [try] of [getCacheEntry] returns an entry for [dir]: the listing
    succeeds, has a child, and the sort goes through. *)
Definition entry_yields (env : Env) (dir : string) : bool :=
  match readdir_result env dir with
  | Ok (f :: files) => sortable env dir (f :: files)
  | _ => false
  end.

(** The child [getCacheEntry] takes from a listing of [dir]. *)
Definition chosen_child (env : Env) (dir : string) (files : list string)
  : string :=
  or_empty (Array_sort (mtimeOrder env dir) files !! 0%nat).

(** A backend for [src/fsCache/index.ts] in which the directory of key
    ["k"] holds ["a"] and a link ["b"] whose target is gone, so that
    [statSync] throws on it, and the directory of key ["k2"] holds one
    archive. *)
Definition dangling_env : Env :=
  surroundings
    (λ dir,
       if String.eqb dir
            (FsCacheIndex.restoreDirOf quiet_env ["target"] Zstd false "k")
       then Ok ["a"; "b"]
       else if String.eqb dir
                 (FsCacheIndex.restoreDirOf quiet_env ["target"] Zstd false
                    "k2")
       then Ok ["cache.tzst"]
       else Throw ENOENT)
    (λ path,
       if String.eqb path
            (join "/" [FsCacheIndex.restoreDirOf quiet_env ["target"] Zstd
                         false "k"; "b"])
       then Throw ENOENT else Ok 1000)
    Ok (λ _, Ok ()) (λ _ _ _, Ok ()).

(** A runner on Windows, otherwise as [quiet_env]. *)
Definition windows_env : Env := {|
  platform := "win32";
  GITHUB_REPOSITORY := Some "acme/app";
  INF_RUNNER_CACHE_DIR := None;
  RUST_CACHE_DIR := None;
  sha256_hex := λ s, s;
  path_join := join "/";
  JSON_stringify := λ l, "[" +:+ join "," l +:+ "]";
  isDebug := false;
  getCompressionMethod := Zstd;
  getCacheFileName :=
    λ c, match c with Gzip => "cache.tgz" | _ => "cache.tzst" end;
  resolvePaths_result := Ok;
  getArchiveFileSizeInBytes_result := λ _, Ok 3145728;
  unlinkFile_result := λ _, Ok ();
  createTar_result := λ _ _ _, Ok ();
  extractTar_result := λ _ _, Ok ();
  listTar_result := λ _ _, Ok ();
  readdir_result := λ _, Throw ENOENT;
  statSync_result := λ _, Ok 0;
  mkdir_result := λ _, Ok ();
|}.

(** The messages of the three checks. *)
Definition no_path_message : string :=
  "Path Validation Error: At least one directory or file path is required".
Definition too_many_keys_message : string :=
  "Key Validation Error: Keys are limited to a maximum of 10.".
Definition key_too_long_message (key : string) : string :=
  "Key Validation Error: " +:+ key +:+ " cannot be larger than 512 characters.".
Definition key_with_comma_message (key : string) : string :=
  "Key Validation Error: " +:+ key +:+ " cannot contain commas.".

(** [chosen] is, in the order of [files], the first of the children that no
    other child was modified before. *)
Definition first_least_recent (mtime : string → Z) (files : list string)
    (chosen : string) : Prop :=
  ∃ before after,
    files = before ++ chosen :: after
    ∧ (∀ f, f ∈ before → mtime chosen < mtime f)
    ∧ (∀ f, f ∈ after → mtime chosen ≤ mtime f).

(** Three children, the two oldest of the same age. *)
Definition tie_mtime (file : string) : Z :=
  if String.eqb file
       (join "/" [FsCacheIndex.restoreDirOf quiet_env ["target"] Zstd false "k";
                  "c"])
  then 3000 else 1000.

Definition tie_env : Env := stored_env ["c"; "a"; "b"] tie_mtime.

(* ================================================================== *)
(** * Properties *)

(** ** The monad *)

Lemma bind_ret_l {A B} (a : A) (k : A → M B) : bind (ret a) k = k a.
Proof. unfold bind, ret. destruct (k a) as [r t]. reflexivity. Qed.

Lemma bind_throw_l {A B} (e : thrown) (k : A → M B) :
  bind (throw e) k = throw e.
Proof. reflexivity. Qed.

Lemma bind_emit {B} (ev : event) (k : unit → M B) :
  bind (emit ev) k = ((k ()).1, ev :: (k ()).2).
Proof. unfold bind, emit. destruct (k ()) as [r t]. reflexivity. Qed.

Lemma outcome_bind_emit {B} (ev : event) (k : unit → M B) :
  outcome (bind (emit ev) k) = outcome (k ()).
Proof. rewrite bind_emit. reflexivity. Qed.

Lemma trace_bind {A B} (m : M A) (k : A → M B) :
  ∃ t, trace (bind m k) = trace m ++ t.
Proof.
  destruct m as [[a|e] t]; simpl.
  - destruct (k a) as [r t']. simpl. eauto.
  - exists []. unfold trace. simpl. by rewrite app_nil_r.
Qed.

(** ** Validation *)

Lemma regex_no_comma_test_occursb key :
  regex_no_comma_test key = negb (occursb comma key).
Proof.
  unfold regex_no_comma_test.
  induction key as [|c key IH]; simpl; [done|].
  rewrite IH. by destruct (Ascii.eqb c comma).
Qed.

Lemma checkKey_ok key : key_ok key → checkKey key = ret ().
Proof.
  intros [Hlen Hc]. unfold checkKey.
  destruct (Nat.ltb_spec 512 (String.length key)); [lia|].
  by rewrite regex_no_comma_test_occursb, Hc.
Qed.

Lemma checkKey_not_ok key :
  ¬ key_ok key → ∃ message, checkKey key = throw (ValidationError message).
Proof.
  intros Hno. unfold checkKey.
  destruct (Nat.ltb_spec 512 (String.length key)); [eauto|].
  rewrite regex_no_comma_test_occursb.
  destruct (occursb comma key) eqn:Hc; simpl; [eauto|].
  destruct Hno. split; [lia|done].
Qed.

Lemma key_ok_dec key : key_ok key ∨ ¬ key_ok key.
Proof.
  unfold key_ok.
  destruct (Nat.le_gt_cases (String.length key) 512);
    destruct (occursb comma key); intuition (try lia; try congruence).
Qed.

Lemma not_key_ok key :
  ¬ key_ok key ↔ (512 < String.length key)%nat ∨ occursb comma key = true.
Proof.
  unfold key_ok. destruct (occursb comma key); split; intros H.
  - by right.
  - intros [_ ?]. done.
  - left. destruct (Nat.le_gt_cases (String.length key) 512); [|done].
    destruct H. done.
  - intros [? _]. destruct H; [lia|done].
Qed.

Lemma for_of_checkKey_ok keys :
  Forall key_ok keys → for_of keys checkKey = ret ().
Proof.
  induction 1 as [|key keys Hk _ IH]; simpl; [done|].
  by rewrite checkKey_ok, bind_ret_l.
Qed.

Lemma for_of_checkKey_not_ok keys key :
  key ∈ keys → ¬ key_ok key →
  ∃ message, for_of keys checkKey = throw (ValidationError message).
Proof.
  intros Hin Hno. induction Hin as [key keys|key k' keys _ IH]; simpl.
  - destruct (checkKey_not_ok key Hno) as [m ->]. eauto.
  - destruct (key_ok_dec k') as [Hk|Hk].
    + rewrite checkKey_ok, bind_ret_l by done. by apply IH.
    + destruct (checkKey_not_ok k' Hk) as [m ->]. eauto.
Qed.

Lemma checkPaths_nil : checkPaths [] = throw (ValidationError
  "Path Validation Error: At least one directory or file path is required").
Proof. reflexivity. Qed.

Lemma checkPaths_cons p paths : checkPaths (p :: paths) = ret ().
Proof. reflexivity. Qed.

Ltac skip_emits := repeat rewrite outcome_bind_emit.

Lemma raises_throw {A} message :
  raises_ValidationError (@throw A (ValidationError message)).
Proof. by exists message. Qed.

(** [restoreCache] of either variant raises [ValidationError] as soon as one
    of its three checks fails. *)
Lemma FsCacheIndex_restoreCache_invalid env paths primaryKey restoreKeys cross :
  let keys := primaryKey :: default [] restoreKeys in
  paths = [] ∨ (10 < length keys)%nat ∨ (∃ key, key ∈ keys ∧ ¬ key_ok key) →
  raises_ValidationError
    (FsCacheIndex.restoreCache env paths primaryKey restoreKeys cross).
Proof.
  intros keys H. unfold FsCacheIndex.restoreCache. fold keys.
  destruct paths as [|p paths].
  { rewrite checkPaths_nil, bind_throw_l. apply raises_throw. }
  rewrite checkPaths_cons, bind_ret_l. unfold raises_ValidationError.
  skip_emits. fold (@raises_ValidationError (option string)).
  destruct (Nat.ltb_spec 10 (length keys)) as [Hl|Hl].
  { rewrite bind_throw_l. apply raises_throw. }
  rewrite bind_ret_l.
  destruct H as [?|[?|(key & Hin & Hno)]]; [done|lia|].
  destruct (for_of_checkKey_not_ok keys key Hin Hno) as [m ->].
  rewrite bind_throw_l. apply raises_throw.
Qed.

Lemma FsCacheKeyed_restoreCache_invalid env paths primaryKey restoreKeys cross :
  let keys := primaryKey :: default [] restoreKeys in
  paths = [] ∨ (10 < length keys)%nat ∨ (∃ key, key ∈ keys ∧ ¬ key_ok key) →
  raises_ValidationError
    (FsCacheKeyed.restoreCache env paths primaryKey restoreKeys cross).
Proof.
  intros keys H. unfold FsCacheKeyed.restoreCache. fold keys.
  destruct paths as [|p paths].
  { rewrite checkPaths_nil, bind_throw_l. apply raises_throw. }
  rewrite checkPaths_cons, bind_ret_l. unfold raises_ValidationError.
  skip_emits. fold (@raises_ValidationError (option string)).
  destruct (Nat.ltb_spec 10 (length keys)) as [Hl|Hl].
  { rewrite bind_throw_l. apply raises_throw. }
  rewrite bind_ret_l.
  destruct H as [?|[?|(key & Hin & Hno)]]; [done|lia|].
  destruct (for_of_checkKey_not_ok keys key Hin Hno) as [m ->].
  rewrite bind_throw_l. apply raises_throw.
Qed.

Lemma FsCacheIndex_saveCache_invalid env paths key cross :
  paths = [] ∨ ¬ key_ok key →
  raises_ValidationError (FsCacheIndex.saveCache env paths key cross).
Proof.
  intros H. unfold FsCacheIndex.saveCache.
  destruct paths as [|p paths].
  { rewrite checkPaths_nil, bind_throw_l. apply raises_throw. }
  rewrite checkPaths_cons, bind_ret_l.
  destruct H as [?|Hno]; [done|].
  destruct (checkKey_not_ok key Hno) as [m ->].
  rewrite bind_throw_l. apply raises_throw.
Qed.

Lemma FsCacheKeyed_saveCache_invalid env paths key cross :
  paths = [] ∨ ¬ key_ok key →
  raises_ValidationError (FsCacheKeyed.saveCache env paths key cross).
Proof.
  intros H. unfold FsCacheKeyed.saveCache.
  destruct paths as [|p paths].
  { rewrite checkPaths_nil, bind_throw_l. apply raises_throw. }
  rewrite checkPaths_cons, bind_ret_l.
  destruct H as [?|Hno]; [done|].
  destruct (checkKey_not_ok key Hno) as [m ->].
  rewrite bind_throw_l. apply raises_throw.
Qed.

(** C4. A key longer than 512 characters, or one that contains a comma, makes
    [checkKey] raise [ValidationError], and with it [saveCache] called on that
    key and [restoreCache] called with that key anywhere in its combined list
    [primaryKey :: restoreKeys]; a combined list of more than 10 keys makes
    [restoreCache] raise [ValidationError]; an empty path list makes both
    [saveCache] and [restoreCache] raise [ValidationError].  This holds for
    both variants and in all surroundings. *)
Theorem validation_boundaries
    (env : Env) (paths : list string) (key primaryKey : string)
    (restoreKeys : option (list string)) (cross : bool) :
  let keys := primaryKey :: default [] restoreKeys in
  ((512 < String.length key)%nat ∨ occursb comma key = true →
     raises_ValidationError (checkKey key)
     ∧ raises_ValidationError (FsCacheIndex.saveCache env paths key cross)
     ∧ raises_ValidationError (FsCacheKeyed.saveCache env paths key cross)
     ∧ (key ∈ keys →
        raises_ValidationError
          (FsCacheIndex.restoreCache env paths primaryKey restoreKeys cross)
        ∧ raises_ValidationError
          (FsCacheKeyed.restoreCache env paths primaryKey restoreKeys cross)))
  ∧ ((10 < length keys)%nat →
     raises_ValidationError
       (FsCacheIndex.restoreCache env paths primaryKey restoreKeys cross)
     ∧ raises_ValidationError
       (FsCacheKeyed.restoreCache env paths primaryKey restoreKeys cross))
  ∧ (paths = [] →
     raises_ValidationError (FsCacheIndex.saveCache env paths key cross)
     ∧ raises_ValidationError (FsCacheKeyed.saveCache env paths key cross)
     ∧ raises_ValidationError
       (FsCacheIndex.restoreCache env paths primaryKey restoreKeys cross)
     ∧ raises_ValidationError
       (FsCacheKeyed.restoreCache env paths primaryKey restoreKeys cross)).
Proof.
  intros keys. split; [|split].
  - intros Hbad. apply not_key_ok in Hbad.
    split; [|split; [|split]].
    + destruct (checkKey_not_ok key Hbad) as [m ->]. apply raises_throw.
    + apply FsCacheIndex_saveCache_invalid. by right.
    + apply FsCacheKeyed_saveCache_invalid. by right.
    + intros Hin. split.
      * apply FsCacheIndex_restoreCache_invalid. right. right. eauto.
      * apply FsCacheKeyed_restoreCache_invalid. right. right. eauto.
  - intros Hlen. split.
    + apply FsCacheIndex_restoreCache_invalid. right. by left.
    + apply FsCacheKeyed_restoreCache_invalid. right. by left.
  - intros ->. split; [|split; [|split]].
    + apply FsCacheIndex_saveCache_invalid. by left.
    + apply FsCacheKeyed_saveCache_invalid. by left.
    + apply FsCacheIndex_restoreCache_invalid. by left.
    + apply FsCacheKeyed_restoreCache_invalid. by left.
Qed.

Lemma validation_boundaries_witness :
  raises_ValidationError (checkKey (repeat_char "a" 513))
  ∧ raises_ValidationError
      (FsCacheKeyed.restoreCache quiet_env ["target"] "k" (Some ["a,b"]) false)
  ∧ raises_ValidationError
      (FsCacheIndex.restoreCache quiet_env ["target"] "k0"
         (Some ["k1"; "k2"; "k3"; "k4"; "k5"; "k6"; "k7"; "k8"; "k9"; "k10"])
         false)
  ∧ raises_ValidationError (FsCacheIndex.saveCache quiet_env [] "k" false).
Proof.
  split; [|split; [|split]].
  - destruct (validation_boundaries quiet_env ["target"]
                (repeat_char "a" 513) "k" None false) as (Hkey & _ & _).
    apply Hkey. left. apply Nat.ltb_lt. vm_compute. reflexivity.
  - destruct (validation_boundaries quiet_env ["target"] "a,b" "k"
                (Some ["a,b"]) false) as (Hkey & _ & _).
    apply Hkey.
    + right. vm_compute. reflexivity.
    + simpl. repeat constructor.
  - destruct (validation_boundaries quiet_env ["target"] "k" "k0"
                (Some ["k1"; "k2"; "k3"; "k4"; "k5"; "k6"; "k7"; "k8"; "k9"; "k10"])
                false) as (_ & Hmany & _).
    apply Hmany. simpl. lia.
  - destruct (validation_boundaries quiet_env [] "k" "k" None false)
      as (_ & _ & Hnone).
    apply Hnone. reflexivity.
Defined.

(** ** Traces *)

Lemma trace_bind_prefix {A B} (m : M A) (k : A → M B) :
  trace m `prefix_of` trace (bind m k).
Proof. destruct (trace_bind m k) as [t ->]. by exists t. Qed.

Lemma trace_try_catch_prefix {A} (m : M A) (h : thrown → M A) :
  trace m `prefix_of` trace (try_catch m h).
Proof.
  destruct m as [[a|e] t]; simpl.
  - done.
  - destruct (h e) as [r t']. by exists t'.
Qed.

Lemma trace_bind_emit {B} (ev : event) (k : unit → M B) :
  trace (bind (emit ev) k) = ev :: trace (k ()).
Proof. rewrite bind_emit. reflexivity. Qed.

Lemma elem_of_prefix {A} (x : A) (l1 l2 : list A) :
  l1 `prefix_of` l2 → x ∈ l1 → x ∈ l2.
Proof. intros [k ->] ?. set_solver. Qed.

Lemma FsCacheIndex_getCacheEntry_first env key keys paths c cross :
  [Readdir (FsCacheIndex.restoreDirOf env paths c cross key)]
    `prefix_of` trace (FsCacheIndex.getCacheEntry env (key :: keys) paths c cross).
Proof.
  simpl. etrans; [|apply trace_bind_prefix].
  etrans; [|apply trace_try_catch_prefix].
  unfold FsCacheIndex.probe. apply trace_bind_prefix.
Qed.

Lemma FsCacheKeyed_getRestoreKey_first env key keys paths c cross :
  [Readdir (FsCacheKeyed.restoreDirOf env paths c cross key)]
    `prefix_of` trace (FsCacheKeyed.getRestoreKey env (key :: keys) paths c cross).
Proof.
  simpl. etrans; [|apply trace_bind_prefix].
  etrans; [|apply trace_try_catch_prefix].
  unfold FsCacheKeyed.probe. apply trace_bind_prefix.
Qed.

(** Past its checks, [restoreCache] is the two debug lines and the guarded
    body. *)
Lemma FsCacheIndex_restoreCache_valid env paths primaryKey restoreKeys cross :
  let keys := primaryKey :: default [] restoreKeys in
  paths ≠ [] → (length keys ≤ 10)%nat → Forall key_ok keys →
  FsCacheIndex.restoreCache env paths primaryKey restoreKeys cross =
  (emit (Debug "Resolved Keys:") ;;;
   emit (Debug (JSON_stringify env keys)) ;;;
   try_catch
     (FsCacheIndex.restoreBody env keys paths (getCompressionMethod env) cross)
     (λ error,
        if name_is error ValidationError_name then throw error
        else
          emit (Warning ("Failed to restore: " +:+ errMessage error)) ;;;
          ret None)).
Proof.
  intros keys Hp Hl Hk. unfold FsCacheIndex.restoreCache. fold keys.
  destruct paths as [|p paths]; [done|].
  rewrite checkPaths_cons, bind_ret_l.
  destruct (Nat.ltb_spec 10 (length keys)); [lia|].
  rewrite bind_ret_l, for_of_checkKey_ok, bind_ret_l by done.
  reflexivity.
Qed.

Lemma FsCacheKeyed_restoreCache_valid env paths primaryKey restoreKeys cross :
  let keys := primaryKey :: default [] restoreKeys in
  paths ≠ [] → (length keys ≤ 10)%nat → Forall key_ok keys →
  FsCacheKeyed.restoreCache env paths primaryKey restoreKeys cross =
  (emit (Debug "Resolved Keys:") ;;;
   emit (Debug (JSON_stringify env keys)) ;;;
   try_catch
     (FsCacheKeyed.restoreBody env keys paths (getCompressionMethod env) cross)
     (λ error,
        if name_is error ValidationError_name then throw error
        else
          emit (Warning ("Failed to restore: " +:+ errMessage error)) ;;;
          ret None)).
Proof.
  intros keys Hp Hl Hk. unfold FsCacheKeyed.restoreCache. fold keys.
  destruct paths as [|p paths]; [done|].
  rewrite checkPaths_cons, bind_ret_l.
  destruct (Nat.ltb_spec 10 (length keys)); [lia|].
  rewrite bind_ret_l, for_of_checkKey_ok, bind_ret_l by done.
  reflexivity.
Qed.

(** C10. [checkKey] raises [ValidationError] exactly when the key has more
    than 512 characters or contains a comma, and returns normally otherwise.
    A key of at most 512 characters without a comma (so one of exactly 512
    characters, and the empty key) passes the checks of [saveCache] and of
    [restoreCache] in both variants: with a non-empty path list [saveCache]
    goes on to resolve the paths, and [restoreCache] goes on to list the
    directory of that key. *)
Theorem checkKey_raises_iff (key : string) :
  (raises_ValidationError (checkKey key)
     ↔ (512 < String.length key)%nat ∨ occursb comma key = true)
  ∧ (checkKey key = ret () ∨ raises_ValidationError (checkKey key))
  ∧ ((String.length key ≤ 512)%nat → occursb comma key = false →
     checkKey key = ret ()
     ∧ ∀ env paths cross, paths ≠ [] →
       ResolvePaths paths ∈ trace (FsCacheIndex.saveCache env paths key cross)
       ∧ ResolvePaths paths ∈ trace (FsCacheKeyed.saveCache env paths key cross)
       ∧ Readdir (FsCacheIndex.restoreDirOf env paths
                    (getCompressionMethod env) cross key)
           ∈ trace (FsCacheIndex.restoreCache env paths key None cross)
       ∧ Readdir (FsCacheKeyed.restoreDirOf env paths
                    (getCompressionMethod env) cross key)
           ∈ trace (FsCacheKeyed.restoreCache env paths key None cross)).
Proof.
  split; [|split].
  - rewrite <- not_key_ok. split.
    + intros [m Hm] Hok. rewrite checkKey_ok in Hm by done. done.
    + intros Hno. destruct (checkKey_not_ok key Hno) as [m ->].
      apply raises_throw.
  - destruct (key_ok_dec key) as [Hok|Hno].
    + left. by apply checkKey_ok.
    + right. destruct (checkKey_not_ok key Hno) as [m ->]. apply raises_throw.
  - intros Hlen Hc. assert (key_ok key) as Hok by done.
    split; [by apply checkKey_ok|].
    intros env paths cross Hp.
    destruct paths as [|p paths]; [done|].
    split; [|split; [|split]].
    + unfold FsCacheIndex.saveCache.
      rewrite checkPaths_cons, bind_ret_l, checkKey_ok, bind_ret_l by done.
      eapply elem_of_prefix; [apply trace_bind_prefix|].
      unfold resolvePaths, call, trace. simpl. set_solver.
    + unfold FsCacheKeyed.saveCache.
      rewrite checkPaths_cons, bind_ret_l, checkKey_ok, bind_ret_l by done.
      eapply elem_of_prefix; [apply trace_bind_prefix|].
      unfold resolvePaths, call, trace. simpl. set_solver.
    + rewrite FsCacheIndex_restoreCache_valid;
        [|done|simpl; lia|simpl; by constructor].
      rewrite !trace_bind_emit. do 2 apply list_elem_of_further.
      eapply elem_of_prefix; [apply trace_try_catch_prefix|].
      eapply elem_of_prefix; [apply trace_bind_prefix|].
      eapply elem_of_prefix; [apply FsCacheIndex_getCacheEntry_first|].
      set_solver.
    + rewrite FsCacheKeyed_restoreCache_valid;
        [|done|simpl; lia|simpl; by constructor].
      rewrite !trace_bind_emit. do 2 apply list_elem_of_further.
      eapply elem_of_prefix; [apply trace_try_catch_prefix|].
      eapply elem_of_prefix; [apply trace_bind_prefix|].
      eapply elem_of_prefix; [apply FsCacheKeyed_getRestoreKey_first|].
      set_solver.
Qed.

Lemma checkKey_raises_iff_witness :
  checkKey (repeat_char "a" 512) = ret ()
  ∧ ResolvePaths ["target"]
      ∈ trace (FsCacheKeyed.saveCache quiet_env ["target"]
                 (repeat_char "a" 512) false)
  ∧ Readdir (FsCacheIndex.restoreDirOf quiet_env ["target"] Zstd false EmptyString)
      ∈ trace (FsCacheIndex.restoreCache quiet_env ["target"] EmptyString None false).
Proof.
  destruct (checkKey_raises_iff (repeat_char "a" 512)) as (_ & _ & Hlong).
  destruct Hlong as [Hret Hgo].
  { apply Nat.leb_le. vm_compute. reflexivity. }
  { vm_compute. reflexivity. }
  destruct (checkKey_raises_iff EmptyString) as (_ & _ & Hempty).
  destruct Hempty as [_ Hgo'].
  { simpl. lia. }
  { reflexivity. }
  split; [exact Hret|]. split.
  - apply (Hgo quiet_env ["target"] false). done.
  - apply (Hgo' quiet_env ["target"] false). done.
Defined.

(** ** Sorting a listing *)

Lemma sort_insert_perm cmp x l : sort_insert cmp x l ≡ₚ x :: l.
Proof.
  induction l as [|y l IH]; simpl; [done|].
  destruct (cmp x y <=? 0); [done|].
  rewrite IH. apply Permutation_swap.
Qed.

Lemma Array_sort_perm cmp l : Array_sort cmp l ≡ₚ l.
Proof.
  induction l as [|x l IH]; simpl; [done|].
  by rewrite sort_insert_perm, IH.
Qed.

Lemma Array_sort_head cmp files :
  files ≠ [] →
  ∃ child, Array_sort cmp files !! 0%nat = Some child ∧ child ∈ files.
Proof.
  intros Hne.
  destruct (Array_sort cmp files) as [|child rest] eqn:Hs.
  - apply (f_equal length) in Hs.
    rewrite (Permutation_length (Array_sort_perm cmp files)) in Hs.
    by destruct files.
  - exists child. split; [done|].
    rewrite <- (Array_sort_perm cmp files), Hs. by left.
Qed.

(** Sorting with the comparator [m a - m b] arranges by [m], smallest
    first. *)
Lemma Array_sort_sorted (m : string → Z) l :
  StronglySorted (λ a b, m a ≤ m b) (Array_sort (λ a b, m a - m b) l).
Proof.
  induction l as [|x l IH]; simpl; [constructor|].
  fold (Array_sort (λ a b, m a - m b) l).
  induction IH as [|y s Hs IHs Hy]; simpl.
  - repeat constructor.
  - destruct (Z.leb_spec (m x - m y) 0).
    + constructor; [by constructor|].
      constructor; [lia|].
      eapply Forall_impl; [exact Hy|]. simpl. intros; lia.
    + constructor; [exact IHs|].
      rewrite (sort_insert_perm _ x s). constructor; [lia|done].
Qed.

Lemma Array_sort_head_least (m : string → Z) files child :
  Array_sort (λ a b, m a - m b) files !! 0%nat = Some child →
  least_recent_of m files child.
Proof.
  intros Hhd. pose proof (Array_sort_sorted m files) as Hs.
  pose proof (Array_sort_perm (λ a b, m a - m b) files) as Hp.
  destruct (Array_sort (λ a b, m a - m b) files) as [|c rest]; [done|].
  simpl in Hhd. injection Hhd as ->.
  apply StronglySorted_inv in Hs as [_ Hall].
  split.
  - rewrite <- Hp. by left.
  - intros f Hf. rewrite <- Hp in Hf.
    apply elem_of_cons in Hf as [->|Hf]; [lia|].
    rewrite Forall_forall in Hall. by apply Hall.
Qed.

(** Where no comparison throws, the sort with the throwing comparator is the
    sort with its answers. *)
Lemma sort_insert_fallible_pure cmp pure x l :
  (∀ y, y ∈ l → cmp x y = Ok (pure x y)) →
  sort_insert_fallible cmp x l = Ok (sort_insert pure x l).
Proof.
  intros Hcmp. induction l as [|y l IH]; simpl; [done|].
  rewrite (Hcmp y) by (by left).
  destruct (pure x y <=? 0); [done|].
  rewrite IH; [done|]. intros z Hz. apply Hcmp. by right.
Qed.

Lemma Array_sort_fallible_pure cmp pure l :
  (∀ x y, x ∈ l → y ∈ l → cmp x y = Ok (pure x y)) →
  Array_sort_fallible cmp l = Ok (Array_sort pure l).
Proof.
  intros Hcmp. induction l as [|x l IH]; simpl; [done|].
  rewrite IH by (intros a b Ha Hb; apply Hcmp; by right).
  fold (Array_sort pure l). apply sort_insert_fallible_pure.
  intros y Hy. rewrite (Array_sort_perm pure l) in Hy.
  apply Hcmp; [by left|by right].
Qed.

(** A sort that comes through has rearranged its input. *)
Lemma sort_insert_fallible_perm cmp x l s :
  sort_insert_fallible cmp x l = Ok s → s ≡ₚ x :: l.
Proof.
  revert s. induction l as [|y l IH]; intros s; simpl.
  - by intros [= <-].
  - destruct (cmp x y) as [d|e]; [|done].
    destruct (d <=? 0); [by intros [= <-]|].
    destruct (sort_insert_fallible cmp x l) as [s'|e]; [|done].
    intros [= <-]. rewrite (IH s' eq_refl). apply Permutation_swap.
Qed.

Lemma Array_sort_fallible_perm cmp l s :
  Array_sort_fallible cmp l = Ok s → s ≡ₚ l.
Proof.
  revert s. induction l as [|x l IH]; intros s; simpl.
  - by intros [= <-].
  - destruct (Array_sort_fallible cmp l) as [s'|e]; [|done].
    intros Hs. rewrite (sort_insert_fallible_perm _ _ _ _ Hs).
    by rewrite (IH s' eq_refl).
Qed.

(** A sort of two or more elements that comes through has had each of them
    in a comparison that did not throw. *)
Lemma Array_sort_fallible_compares (good : string → Prop) cmp l s :
  (∀ a b d, cmp a b = Ok d → good a ∧ good b) →
  (2 ≤ length l)%nat →
  Array_sort_fallible cmp l = Ok s →
  Forall good l.
Proof.
  intros Hcmp. revert s.
  induction l as [|x l IH]; intros s Hlen Hs; simpl in Hlen; [lia|].
  simpl in Hs.
  destruct (Array_sort_fallible cmp l) as [s'|e] eqn:Hs'; [|done].
  destruct l as [|y l]; [simpl in Hlen; lia|].
  destruct l as [|z l].
  - simpl in Hs'. injection Hs' as <-. simpl in Hs.
    destruct (cmp x y) as [d|e] eqn:Hd; [|done].
    destruct (Hcmp x y d Hd) as [Hx Hy]. by repeat constructor.
  - pose proof (Array_sort_fallible_perm _ _ _ Hs') as Hp.
    destruct s' as [|h t].
    { by apply Permutation_nil_cons in Hp. }
    simpl in Hs. destruct (cmp x h) as [d|e] eqn:Hd; [|done].
    destruct (Hcmp x h d Hd) as [Hx _].
    constructor; [done|]. apply (IH (h :: t)); [simpl; lia|done].
Qed.

Lemma statable_elem env dir files f :
  statable env dir files = true → f ∈ files → statable env dir [f] = true.
Proof.
  unfold statable. intros Hall Hf. cbn [forallb]. rewrite andb_true_r.
  rewrite forallb_forall in Hall. apply Hall.
  by apply list_elem_of_In.
Qed.

Lemma statable_Forall env dir files :
  Forall (λ f, statable env dir [f] = true) files →
  statable env dir files = true.
Proof.
  unfold statable. intros Hall. apply forallb_forall. intros f Hf.
  rewrite Forall_forall in Hall. apply list_elem_of_In in Hf.
  specialize (Hall f Hf). cbn [forallb] in Hall.
  by rewrite andb_true_r in Hall.
Qed.

Lemma FsCacheIndex_byMtime_statable env dir a b :
  statable env dir [a] = true →
  statable env dir [b] = true →
  FsCacheIndex.byMtime env dir a b = Ok (mtimeOrder env dir a b).
Proof.
  unfold statable, FsCacheIndex.byMtime, mtimeOrder, mtimeMs.
  cbn [forallb].
  destruct (statSync_result env (join "/" [dir; a])); [|done].
  destruct (statSync_result env (join "/" [dir; b])); done.
Qed.

Lemma FsCacheIndex_byMtime_ok env dir a b d :
  FsCacheIndex.byMtime env dir a b = Ok d →
  statable env dir [a] = true ∧ statable env dir [b] = true.
Proof.
  unfold statable, FsCacheIndex.byMtime. cbn [forallb].
  destruct (statSync_result env (join "/" [dir; a])); [|done].
  destruct (statSync_result env (join "/" [dir; b])); done.
Qed.

(** The sort of [getCacheEntry] comes through exactly on a sortable
    listing, and then arranges by modification time. *)
Lemma FsCacheIndex_sort_sortable env dir files :
  sortable env dir files = true →
  Array_sort_fallible (FsCacheIndex.byMtime env dir) files
  = Ok (Array_sort (mtimeOrder env dir) files).
Proof.
  intros Hs. destruct files as [|x [|y l]]; [done|done|].
  apply Array_sort_fallible_pure. intros a b Ha Hb.
  apply FsCacheIndex_byMtime_statable; by eapply statable_elem.
Qed.

Lemma FsCacheIndex_sort_unsortable env dir files :
  sortable env dir files = false →
  ∃ e, Array_sort_fallible (FsCacheIndex.byMtime env dir) files = Throw e.
Proof.
  intros Hs.
  destruct (Array_sort_fallible (FsCacheIndex.byMtime env dir) files)
    as [s|e] eqn:Hsort; [|by exists e].
  destruct files as [|x [|y l]]; [done|done|].
  change (statable env dir (x :: y :: l) = false) in Hs.
  assert (statable env dir (x :: y :: l) = true) as Hall; [|congruence].
  apply statable_Forall.
  apply (Array_sort_fallible_compares _ (FsCacheIndex.byMtime env dir) _ s);
    [|simpl; lia|done].
  intros a b d. apply FsCacheIndex_byMtime_ok.
Qed.

Lemma listing_yields_true env dir :
  listing_yields env dir = true →
  ∃ files, readdir_result env dir = Ok files ∧ files ≠ [].
Proof.
  unfold listing_yields.
  destruct (readdir_result env dir) as [[|f fs]|e]; [done| |done].
  intros _. by exists (f :: fs).
Qed.

Lemma entry_yields_true env dir :
  entry_yields env dir = true →
  ∃ files, readdir_result env dir = Ok files ∧ files ≠ []
           ∧ sortable env dir files = true.
Proof.
  unfold entry_yields.
  destruct (readdir_result env dir) as [[|f fs]|e]; [done| |done].
  intros Hs. by exists (f :: fs).
Qed.

Lemma entry_yields_intro env dir files :
  readdir_result env dir = Ok files →
  files ≠ [] →
  sortable env dir files = true →
  entry_yields env dir = true.
Proof.
  unfold entry_yields. intros -> Hne Hs. by destruct files.
Qed.

Lemma listing_miss_entry_miss env dir :
  listing_yields env dir = false → entry_yields env dir = false.
Proof.
  unfold listing_yields, entry_yields.
  by destruct (readdir_result env dir) as [[|f fs]|e].
Qed.

(** When an entry is yielded: the listing has a child, and with two or more
    children [statSync] succeeds on each. *)
Lemma entry_yields_spec env dir :
  entry_yields env dir = true
  ↔ ∃ files, readdir_result env dir = Ok files ∧ files ≠ []
             ∧ (length files = 1%nat
                ∨ ∀ f, f ∈ files →
                       ∃ t, statSync_result env (join "/" [dir; f]) = Ok t).
Proof.
  split.
  - intros H. destruct (entry_yields_true _ _ H) as (files & Hfiles & Hne & Hs).
    exists files. split; [done|]. split; [done|].
    destruct files as [|x [|y l]]; [done|by left|right].
    intros f Hf. pose proof (statable_elem _ _ _ _ Hs Hf) as Hstat.
    unfold statable in Hstat. cbn [forallb] in Hstat.
    destruct (statSync_result env (join "/" [dir; f])) as [t|e];
      [by exists t|done].
  - intros (files & Hfiles & Hne & Hcase).
    apply (entry_yields_intro _ _ files); [done|done|].
    destruct files as [|x [|y l]]; [done|done|].
    destruct Hcase as [Hlen|Hall]; [done|].
    apply statable_Forall, Forall_forall. intros f Hf.
    destruct (Hall f Hf) as [t Ht]. unfold statable. cbn [forallb].
    by rewrite Ht.
Qed.

(** ** The key lookup *)

Lemma consulted_app t1 t2 : consulted (t1 ++ t2) = consulted t1 ++ consulted t2.
Proof.
  induction t1 as [|ev t1 IH]; simpl; [done|].
  destruct ev; simpl; by rewrite ?IH.
Qed.

(** One round of the loop of [getRestoreKey]. *)
Lemma FsCacheKeyed_getRestoreKey_miss env key keys paths c cross :
  listing_yields env (FsCacheKeyed.restoreDirOf env paths c cross key) = false →
  outcome (FsCacheKeyed.getRestoreKey env (key :: keys) paths c cross)
  = outcome (FsCacheKeyed.getRestoreKey env keys paths c cross)
  ∧ consulted (trace (FsCacheKeyed.getRestoreKey env (key :: keys) paths c cross))
  = FsCacheKeyed.restoreDirOf env paths c cross key
    :: consulted (trace (FsCacheKeyed.getRestoreKey env keys paths c cross)).
Proof.
  unfold listing_yields. intros Hmiss. cbn [FsCacheKeyed.getRestoreKey].
  set (dir := FsCacheKeyed.restoreDirOf env paths c cross key) in *.
  destruct (FsCacheKeyed.getRestoreKey env keys paths c cross) as [r t].
  unfold FsCacheKeyed.probe, readdir, call.
  destruct (readdir_result env dir) as [[|f fs]|e]; [|done|]; simpl; done.
Qed.

Lemma FsCacheKeyed_getRestoreKey_hit env key keys paths c cross :
  listing_yields env (FsCacheKeyed.restoreDirOf env paths c cross key) = true →
  outcome (FsCacheKeyed.getRestoreKey env (key :: keys) paths c cross)
  = Ok (Some key)
  ∧ consulted (trace (FsCacheKeyed.getRestoreKey env (key :: keys) paths c cross))
  = [FsCacheKeyed.restoreDirOf env paths c cross key].
Proof.
  unfold listing_yields. intros Hhit. cbn [FsCacheKeyed.getRestoreKey].
  set (dir := FsCacheKeyed.restoreDirOf env paths c cross key) in *.
  unfold FsCacheKeyed.probe, readdir, call.
  destruct (readdir_result env dir) as [[|f fs]|e]; [done| |done]; simpl; done.
Qed.

(** One round of the loop of [getCacheEntry]. *)
Lemma FsCacheIndex_probe_cases env dir :
  FsCacheIndex.probe env dir
  = match readdir_result env dir with
    | Ok [] => (Ok None, [Readdir dir])
    | Ok files =>
        match Array_sort_fallible (FsCacheIndex.byMtime env dir) files with
        | Ok sortedKeys =>
            (Ok (Some {| cacheKey := or_empty (sortedKeys !! 0%nat);
                         archiveLocation := dir |}), [Readdir dir])
        | Throw e => (Throw e, [Readdir dir])
        end
    | Throw e => (Throw e, [Readdir dir])
    end.
Proof.
  unfold FsCacheIndex.probe, readdir, call, lift.
  destruct (readdir_result env dir) as [[|f fs]|e]; [done| |done].
  cbn -[Array_sort_fallible].
  by destruct (Array_sort_fallible (FsCacheIndex.byMtime env dir) (f :: fs)).
Qed.

Lemma FsCacheIndex_getCacheEntry_skip env key keys paths c cross :
  entry_yields env (FsCacheIndex.restoreDirOf env paths c cross key) = false →
  outcome (FsCacheIndex.getCacheEntry env (key :: keys) paths c cross)
  = outcome (FsCacheIndex.getCacheEntry env keys paths c cross)
  ∧ consulted (trace (FsCacheIndex.getCacheEntry env (key :: keys) paths c cross))
  = FsCacheIndex.restoreDirOf env paths c cross key
    :: consulted (trace (FsCacheIndex.getCacheEntry env keys paths c cross)).
Proof.
  unfold entry_yields. intros Hmiss. cbn [FsCacheIndex.getCacheEntry].
  set (dir := FsCacheIndex.restoreDirOf env paths c cross key) in *.
  destruct (FsCacheIndex.getCacheEntry env keys paths c cross) as [r t].
  rewrite FsCacheIndex_probe_cases.
  destruct (readdir_result env dir) as [[|f fs]|e]; [done| |done].
  destruct (FsCacheIndex_sort_unsortable _ _ _ Hmiss) as [e ->]. done.
Qed.

Lemma FsCacheIndex_getCacheEntry_miss env key keys paths c cross :
  listing_yields env (FsCacheIndex.restoreDirOf env paths c cross key) = false →
  outcome (FsCacheIndex.getCacheEntry env (key :: keys) paths c cross)
  = outcome (FsCacheIndex.getCacheEntry env keys paths c cross)
  ∧ consulted (trace (FsCacheIndex.getCacheEntry env (key :: keys) paths c cross))
  = FsCacheIndex.restoreDirOf env paths c cross key
    :: consulted (trace (FsCacheIndex.getCacheEntry env keys paths c cross)).
Proof.
  intros Hmiss. by apply FsCacheIndex_getCacheEntry_skip, listing_miss_entry_miss.
Qed.

Lemma FsCacheIndex_getCacheEntry_hit env key keys paths c cross files :
  readdir_result env (FsCacheIndex.restoreDirOf env paths c cross key)
  = Ok files →
  files ≠ [] →
  sortable env (FsCacheIndex.restoreDirOf env paths c cross key) files = true →
  let dir := FsCacheIndex.restoreDirOf env paths c cross key in
  outcome (FsCacheIndex.getCacheEntry env (key :: keys) paths c cross)
  = Ok (Some {| cacheKey := chosen_child env dir files;
                archiveLocation := dir |})
  ∧ consulted (trace (FsCacheIndex.getCacheEntry env (key :: keys) paths c cross))
  = [dir].
Proof.
  intros Hfiles Hne Hs dir. cbn [FsCacheIndex.getCacheEntry]. fold dir.
  fold dir in Hfiles, Hs.
  rewrite FsCacheIndex_probe_cases, Hfiles, (FsCacheIndex_sort_sortable _ _ _ Hs).
  by destruct files.
Qed.

Lemma FsCacheKeyed_getRestoreKey_first_match env paths c cross pre key post :
  (∀ k, k ∈ pre →
        listing_yields env (FsCacheKeyed.restoreDirOf env paths c cross k) = false) →
  listing_yields env (FsCacheKeyed.restoreDirOf env paths c cross key) = true →
  outcome (FsCacheKeyed.getRestoreKey env (pre ++ key :: post) paths c cross)
  = Ok (Some key)
  ∧ consulted (trace (FsCacheKeyed.getRestoreKey env (pre ++ key :: post)
                        paths c cross))
  = FsCacheKeyed.restoreDirOf env paths c cross <$> (pre ++ [key]).
Proof.
  intros Hpre Hkey. induction pre as [|k pre IH].
  - by apply FsCacheKeyed_getRestoreKey_hit.
  - destruct (FsCacheKeyed_getRestoreKey_miss env k (pre ++ key :: post)
                paths c cross) as [Ho Ht].
    { apply Hpre. by left. }
    destruct IH as [IHo IHt].
    { intros k' Hk'. apply Hpre. by right. }
    rewrite <- !app_comm_cons, Ho, Ht, IHo, IHt. done.
Qed.

Lemma FsCacheKeyed_getRestoreKey_no_match env paths c cross keys :
  (∀ k, k ∈ keys →
        listing_yields env (FsCacheKeyed.restoreDirOf env paths c cross k) = false) →
  outcome (FsCacheKeyed.getRestoreKey env keys paths c cross) = Ok None
  ∧ consulted (trace (FsCacheKeyed.getRestoreKey env keys paths c cross))
  = FsCacheKeyed.restoreDirOf env paths c cross <$> keys.
Proof.
  intros Hkeys. induction keys as [|k keys IH]; [done|].
  destruct (FsCacheKeyed_getRestoreKey_miss env k keys paths c cross)
    as [Ho Ht].
  { apply Hkeys. by left. }
  destruct IH as [IHo IHt].
  { intros k' Hk'. apply Hkeys. by right. }
  rewrite Ho, Ht, IHo, IHt. done.
Qed.

Lemma FsCacheKeyed_getRestoreKey_returns env paths c cross keys :
  ∃ r, outcome (FsCacheKeyed.getRestoreKey env keys paths c cross) = Ok r.
Proof.
  induction keys as [|k keys [r IH]]; [by exists None|].
  destruct (listing_yields env (FsCacheKeyed.restoreDirOf env paths c cross k))
    eqn:Hk.
  - exists (Some k). by apply FsCacheKeyed_getRestoreKey_hit.
  - exists r. rewrite <- IH. by apply FsCacheKeyed_getRestoreKey_miss.
Qed.

Lemma FsCacheIndex_getCacheEntry_first_match env paths c cross pre key post :
  (∀ k, k ∈ pre →
        entry_yields env (FsCacheIndex.restoreDirOf env paths c cross k) = false) →
  entry_yields env (FsCacheIndex.restoreDirOf env paths c cross key) = true →
  (∃ entry,
     outcome (FsCacheIndex.getCacheEntry env (pre ++ key :: post) paths c cross)
     = Ok (Some entry)
     ∧ archiveLocation entry = FsCacheIndex.restoreDirOf env paths c cross key)
  ∧ consulted (trace (FsCacheIndex.getCacheEntry env (pre ++ key :: post)
                        paths c cross))
  = FsCacheIndex.restoreDirOf env paths c cross <$> (pre ++ [key]).
Proof.
  intros Hpre Hkey. induction pre as [|k pre IH].
  - destruct (entry_yields_true _ _ Hkey) as (files & Hfiles & Hne & Hs).
    destruct (FsCacheIndex_getCacheEntry_hit env key post paths c cross files
                Hfiles Hne Hs) as [Ho Ht].
    split; [|done]. eexists. split; [exact Ho|done].
  - destruct (FsCacheIndex_getCacheEntry_skip env k (pre ++ key :: post)
                paths c cross) as [Ho Ht].
    { apply Hpre. by left. }
    destruct IH as [(entry & IHo & Hloc) IHt].
    { intros k' Hk'. apply Hpre. by right. }
    rewrite <- !app_comm_cons, Ho, Ht, IHt. split; [|done]. by exists entry.
Qed.

Lemma FsCacheIndex_getCacheEntry_none env paths c cross keys :
  (∀ k, k ∈ keys →
        entry_yields env (FsCacheIndex.restoreDirOf env paths c cross k) = false) →
  outcome (FsCacheIndex.getCacheEntry env keys paths c cross) = Ok None
  ∧ consulted (trace (FsCacheIndex.getCacheEntry env keys paths c cross))
  = FsCacheIndex.restoreDirOf env paths c cross <$> keys.
Proof.
  intros Hkeys. induction keys as [|k keys IH]; [done|].
  destruct (FsCacheIndex_getCacheEntry_skip env k keys paths c cross)
    as [Ho Ht].
  { apply Hkeys. by left. }
  destruct IH as [IHo IHt].
  { intros k' Hk'. apply Hkeys. by right. }
  rewrite Ho, Ht, IHo, IHt. done.
Qed.

Lemma FsCacheIndex_getCacheEntry_no_match env paths c cross keys :
  (∀ k, k ∈ keys →
        listing_yields env (FsCacheIndex.restoreDirOf env paths c cross k) = false) →
  outcome (FsCacheIndex.getCacheEntry env keys paths c cross) = Ok None
  ∧ consulted (trace (FsCacheIndex.getCacheEntry env keys paths c cross))
  = FsCacheIndex.restoreDirOf env paths c cross <$> keys.
Proof.
  intros Hkeys. apply FsCacheIndex_getCacheEntry_none.
  intros k Hk. by apply listing_miss_entry_miss, Hkeys.
Qed.

Lemma FsCacheIndex_getCacheEntry_returns env paths c cross keys :
  ∃ r, outcome (FsCacheIndex.getCacheEntry env keys paths c cross) = Ok r.
Proof.
  induction keys as [|k keys [r IH]]; [by exists None|].
  destruct (entry_yields env (FsCacheIndex.restoreDirOf env paths c cross k))
    eqn:Hk.
  - destruct (entry_yields_true _ _ Hk) as (files & Hfiles & Hne & Hs).
    eexists.
    by apply (FsCacheIndex_getCacheEntry_hit env k keys paths c cross files).
  - exists r. rewrite <- IH. by apply FsCacheIndex_getCacheEntry_skip.
Qed.

Lemma FsCacheIndex_getCacheEntry_first_match_entry
    env paths c cross pre key post files :
  (∀ k, k ∈ pre →
        entry_yields env (FsCacheIndex.restoreDirOf env paths c cross k) = false) →
  readdir_result env (FsCacheIndex.restoreDirOf env paths c cross key)
  = Ok files →
  files ≠ [] →
  sortable env (FsCacheIndex.restoreDirOf env paths c cross key) files = true →
  let dir := FsCacheIndex.restoreDirOf env paths c cross key in
  outcome (FsCacheIndex.getCacheEntry env (pre ++ key :: post) paths c cross)
  = Ok (Some {| cacheKey := chosen_child env dir files;
                archiveLocation := dir |}).
Proof.
  intros Hpre Hfiles Hne Hs dir. induction pre as [|k pre IH].
  - by apply FsCacheIndex_getCacheEntry_hit.
  - destruct (FsCacheIndex_getCacheEntry_skip env k (pre ++ key :: post)
                paths c cross) as [Ho _].
    { apply Hpre. by left. }
    rewrite <- app_comm_cons, Ho. apply IH.
    intros k' Hk'. apply Hpre. by right.
Qed.

(** What [getCacheEntry] does pick: a child that no other child of the
    directory was modified before. *)
Lemma FsCacheIndex_getCacheEntry_least_recent
    env paths c cross pre key post files :
  (∀ k, k ∈ pre →
        entry_yields env (FsCacheIndex.restoreDirOf env paths c cross k) = false) →
  readdir_result env (FsCacheIndex.restoreDirOf env paths c cross key)
  = Ok files →
  files ≠ [] →
  sortable env (FsCacheIndex.restoreDirOf env paths c cross key) files = true →
  let dir := FsCacheIndex.restoreDirOf env paths c cross key in
  ∃ child,
    outcome (FsCacheIndex.getCacheEntry env (pre ++ key :: post) paths c cross)
    = Ok (Some {| cacheKey := child; archiveLocation := dir |})
    ∧ least_recent_of (λ f, mtimeMs env (join "/" [dir; f])) files child.
Proof.
  intros Hpre Hfiles Hne Hs dir.
  destruct (Array_sort_head (mtimeOrder env dir) files Hne)
    as (child & Hhd & _).
  exists child. split.
  - rewrite (FsCacheIndex_getCacheEntry_first_match_entry
               env paths c cross pre key post files Hpre Hfiles Hne Hs).
    fold dir. unfold chosen_child. by rewrite Hhd.
  - by apply (Array_sort_head_least (λ f, mtimeMs env (join "/" [dir; f]))).
Qed.

(** C3 (as amended). Both lookups go through the keys in the order given and
    answer for the first key that yields.  For [getRestoreKey] a key yields
    when its listing has a child.  For [getCacheEntry] a key yields when its
    listing has a child and the sort of the listing comes through: there is
    a single child, or [statSync] succeeds on every child; a key whose
    listing fails or is empty yields nothing.  When the keys before [key]
    yield nothing and [key] yields, the lookup answers for [key]
    ([getRestoreKey] with the key, [getCacheEntry] with an entry located in
    the directory of [key]), and the directories it has listed are those of
    the keys up to [key] and no later one.  When no key yields, the lookup
    has listed every key's directory and returns none.  In no case does the
    lookup raise. *)
Theorem lookup_first_match
    (env : Env) (paths : list string) (c : CompressionMethod) (cross : bool) :
  (∀ pre key post,
     (∀ k, k ∈ pre →
        listing_yields env (FsCacheKeyed.restoreDirOf env paths c cross k) = false) →
     listing_yields env (FsCacheKeyed.restoreDirOf env paths c cross key) = true →
     outcome (FsCacheKeyed.getRestoreKey env (pre ++ key :: post) paths c cross)
     = Ok (Some key)
     ∧ consulted (trace (FsCacheKeyed.getRestoreKey env (pre ++ key :: post)
                           paths c cross))
     = FsCacheKeyed.restoreDirOf env paths c cross <$> (pre ++ [key]))
  ∧ (∀ pre key post,
     (∀ k, k ∈ pre →
        entry_yields env (FsCacheIndex.restoreDirOf env paths c cross k) = false) →
     entry_yields env (FsCacheIndex.restoreDirOf env paths c cross key) = true →
     (∃ entry,
        outcome (FsCacheIndex.getCacheEntry env (pre ++ key :: post) paths c cross)
        = Ok (Some entry)
        ∧ archiveLocation entry = FsCacheIndex.restoreDirOf env paths c cross key)
     ∧ consulted (trace (FsCacheIndex.getCacheEntry env (pre ++ key :: post)
                           paths c cross))
     = FsCacheIndex.restoreDirOf env paths c cross <$> (pre ++ [key]))
  ∧ (∀ keys,
     (∀ k, k ∈ keys →
        listing_yields env (FsCacheKeyed.restoreDirOf env paths c cross k) = false) →
     outcome (FsCacheKeyed.getRestoreKey env keys paths c cross) = Ok None
     ∧ consulted (trace (FsCacheKeyed.getRestoreKey env keys paths c cross))
     = FsCacheKeyed.restoreDirOf env paths c cross <$> keys)
  ∧ (∀ keys,
     (∀ k, k ∈ keys →
        entry_yields env (FsCacheIndex.restoreDirOf env paths c cross k) = false) →
     outcome (FsCacheIndex.getCacheEntry env keys paths c cross) = Ok None
     ∧ consulted (trace (FsCacheIndex.getCacheEntry env keys paths c cross))
     = FsCacheIndex.restoreDirOf env paths c cross <$> keys)
  ∧ (∀ keys,
     (∃ r, outcome (FsCacheKeyed.getRestoreKey env keys paths c cross) = Ok r)
     ∧ (∃ r, outcome (FsCacheIndex.getCacheEntry env keys paths c cross) = Ok r))
  ∧ (∀ dir,
     entry_yields env dir = true
     ↔ ∃ files, readdir_result env dir = Ok files ∧ files ≠ []
                ∧ (length files = 1%nat
                   ∨ ∀ f, f ∈ files →
                          ∃ t, statSync_result env (join "/" [dir; f]) = Ok t))
  ∧ (∀ dir, listing_yields env dir = false → entry_yields env dir = false).
Proof.
  split; [|split; [|split; [|split; [|split; [|split]]]]].
  - intros pre key post. apply FsCacheKeyed_getRestoreKey_first_match.
  - intros pre key post. apply FsCacheIndex_getCacheEntry_first_match.
  - intros keys. apply FsCacheKeyed_getRestoreKey_no_match.
  - intros keys. apply FsCacheIndex_getCacheEntry_none.
  - intros keys. split.
    + apply FsCacheKeyed_getRestoreKey_returns.
    + apply FsCacheIndex_getCacheEntry_returns.
  - intros dir. apply entry_yields_spec.
  - intros dir. apply listing_miss_entry_miss.
Qed.

Lemma lookup_first_match_witness :
  outcome (FsCacheKeyed.getRestoreKey one_archive_env
             ["k0"; "k"; "k2"] ["target"] Zstd false) = Ok (Some "k")
  ∧ consulted (trace (FsCacheIndex.getCacheEntry
                        old_new_env
                        ["k0"; "k"; "k2"] ["target"] Zstd false))
    = FsCacheIndex.restoreDirOf old_new_env
        ["target"] Zstd false <$> ["k0"; "k"]
  ∧ outcome (FsCacheIndex.getCacheEntry dangling_env ["k0"; "k"] ["target"]
               Zstd false) = Ok None.
Proof.
  destruct (lookup_first_match one_archive_env
              ["target"] Zstd false) as (Hkeyed & _).
  destruct (lookup_first_match old_new_env
              ["target"] Zstd false) as (_ & Hindex & _).
  destruct (lookup_first_match dangling_env ["target"] Zstd false)
    as (_ & _ & _ & Hnone & _).
  split; [|split].
  - apply (Hkeyed ["k0"] "k" ["k2"]).
    + intros k Hk. apply list_elem_of_singleton in Hk. subst k.
      vm_compute. reflexivity.
    + vm_compute. reflexivity.
  - apply (Hindex ["k0"] "k" ["k2"]).
    + intros k Hk. apply list_elem_of_singleton in Hk. subst k.
      vm_compute. reflexivity.
    + vm_compute. reflexivity.
  - apply (Hnone ["k0"; "k"]). intros k Hk.
    apply elem_of_cons in Hk as [->|Hk]; [vm_compute; reflexivity|].
    apply list_elem_of_singleton in Hk. subst k. vm_compute. reflexivity.
Defined.

(** C3 as stated fails for [getCacheEntry].  The directory of ["k"] lists two
    children, and [statSync] throws on one of them.  The listing of ["k"]
    yields children, yet [getCacheEntry] goes on to list the directory of the
    lower-priority key ["k2"] and answers with the entry found there. *)
Lemma lookup_first_match_counterexample :
  readdir_result dangling_env
    (FsCacheIndex.restoreDirOf dangling_env ["target"] Zstd false "k")
  = Ok ["a"; "b"]
  ∧ listing_yields dangling_env
      (FsCacheIndex.restoreDirOf dangling_env ["target"] Zstd false "k") = true
  ∧ outcome (FsCacheIndex.getCacheEntry dangling_env ["k"; "k2"] ["target"]
               Zstd false)
    = Ok (Some {| cacheKey := "cache.tzst";
                  archiveLocation :=
                    FsCacheIndex.restoreDirOf dangling_env ["target"] Zstd
                      false "k2" |})
  ∧ consulted (trace (FsCacheIndex.getCacheEntry dangling_env ["k"; "k2"]
                        ["target"] Zstd false))
    = FsCacheIndex.restoreDirOf dangling_env ["target"] Zstd false
        <$> ["k"; "k2"].
Proof.
  split; [vm_compute; reflexivity|].
  split; [vm_compute; reflexivity|].
  split; vm_compute; reflexivity.
Qed.

(** ** Which child [getCacheEntry] picks *)

(** C1 (as amended). When the keys before [key] yield nothing and the
    directory of [key] lists at least one child, and, where it lists two or
    more, [statSync] succeeds on each of them, [getCacheEntry] answers with
    exactly one of the listed children, together with that directory;
    [getRestoreKey] does not sort or pick a child and answers with [key]
    itself. *)
Theorem lookup_selects_one_entry
    (env : Env) (paths : list string) (c : CompressionMethod) (cross : bool)
    (pre : list string) (key : string) (post files : list string) :
  files ≠ [] →
  ((∀ k, k ∈ pre →
      entry_yields env (FsCacheIndex.restoreDirOf env paths c cross k) = false) →
   readdir_result env (FsCacheIndex.restoreDirOf env paths c cross key)
   = Ok files →
   sortable env (FsCacheIndex.restoreDirOf env paths c cross key) files = true →
   ∃ child,
     child ∈ files
     ∧ outcome (FsCacheIndex.getCacheEntry env (pre ++ key :: post) paths c cross)
       = Ok (Some {| cacheKey := child;
                     archiveLocation :=
                       FsCacheIndex.restoreDirOf env paths c cross key |}))
  ∧ ((∀ k, k ∈ pre →
      listing_yields env (FsCacheKeyed.restoreDirOf env paths c cross k) = false) →
     readdir_result env (FsCacheKeyed.restoreDirOf env paths c cross key)
     = Ok files →
     outcome (FsCacheKeyed.getRestoreKey env (pre ++ key :: post) paths c cross)
     = Ok (Some key)).
Proof.
  intros Hne. split.
  - intros Hpre Hfiles Hs.
    destruct (Array_sort_head
                (mtimeOrder env
                   (FsCacheIndex.restoreDirOf env paths c cross key))
                files Hne) as (child & Hhd & Hin).
    exists child. split; [done|].
    rewrite (FsCacheIndex_getCacheEntry_first_match_entry
               env paths c cross pre key post files Hpre Hfiles Hne Hs).
    unfold chosen_child. by rewrite Hhd.
  - intros Hpre Hfiles.
    apply FsCacheKeyed_getRestoreKey_first_match; [done|].
    unfold listing_yields. rewrite Hfiles. by destruct files.
Qed.

Lemma lookup_selects_one_entry_witness :
  (∃ child,
     child ∈ ["old"; "new"]
     ∧ outcome (FsCacheIndex.getCacheEntry old_new_env ["k0"; "k"; "k2"]
                  ["target"] Zstd false)
       = Ok (Some {| cacheKey := child;
                     archiveLocation :=
                       FsCacheIndex.restoreDirOf old_new_env ["target"] Zstd
                         false "k" |}))
  ∧ outcome (FsCacheKeyed.getRestoreKey old_new_env ["k0"; "k"; "k2"]
               ["target"] Zstd false) = Ok (Some "k").
Proof.
  destruct (lookup_selects_one_entry old_new_env ["target"] Zstd false
              ["k0"] "k" ["k2"] ["old"; "new"]) as [Hindex Hkeyed]; [done|].
  split.
  - apply Hindex; [|vm_compute; reflexivity|vm_compute; reflexivity].
    intros k Hk. apply list_elem_of_singleton in Hk. subst k.
    vm_compute. reflexivity.
  - apply Hkeyed; [|vm_compute; reflexivity].
    intros k Hk. apply list_elem_of_singleton in Hk. subst k.
    vm_compute. reflexivity.
Defined.

(** C1 as stated fails.  The directory of ["k"] holds ["old"], modified at
    1000, and ["new"], modified at 2000.  [getCacheEntry] answers with
    ["old"], which is not the most recently modified child, and
    [getRestoreKey] answers with ["k"], which is no child at all. *)
Lemma lookup_most_recent_counterexample :
  readdir_result old_new_env
    (FsCacheIndex.restoreDirOf old_new_env ["target"] Zstd false "k")
  = Ok ["old"; "new"]
  ∧ readdir_result old_new_env
      (FsCacheKeyed.restoreDirOf old_new_env ["target"] Zstd false "k")
    = Ok ["old"; "new"]
  ∧ outcome (FsCacheIndex.getCacheEntry old_new_env ["k"] ["target"] Zstd false)
    = Ok (Some {| cacheKey := "old";
                  archiveLocation :=
                    FsCacheIndex.restoreDirOf old_new_env ["target"] Zstd
                      false "k" |})
  ∧ ¬ most_recent_of
        (λ f, mtimeMs old_new_env
                (join "/" [FsCacheIndex.restoreDirOf old_new_env ["target"]
                             Zstd false "k"; f]))
        ["old"; "new"] "old"
  ∧ outcome (FsCacheKeyed.getRestoreKey old_new_env ["k"] ["target"] Zstd false)
    = Ok (Some "k")
  ∧ ¬ most_recent_of
        (λ f, mtimeMs old_new_env
                (join "/" [FsCacheKeyed.restoreDirOf old_new_env ["target"]
                             Zstd false "k"; f]))
        ["old"; "new"] "k".
Proof.
  split; [vm_compute; reflexivity|].
  split; [vm_compute; reflexivity|].
  split; [vm_compute; reflexivity|].
  split.
  { intros [_ Hmax]. specialize (Hmax "new").
    vm_compute in Hmax. apply Hmax; [|reflexivity].
    right. left. }
  split; [vm_compute; reflexivity|].
  intros [Hin _].
  repeat (apply elem_of_cons in Hin as [Hin|Hin]; [done|]).
  by apply elem_of_nil in Hin.
Qed.

(** ** What [restoreCache] returns *)

Lemma outcome_bind_ok {A B} (m : M A) (k : A → M B) (b : B) :
  outcome (bind m k) = Ok b →
  ∃ a, outcome m = Ok a ∧ outcome (k a) = Ok b.
Proof.
  destruct m as [[a|e] t]; simpl; [|done].
  intros H. exists a. split; [done|]. by destruct (k a).
Qed.

Lemma outcome_try_catch_ok {A} (m : M A) (h : thrown → M A) (a : A) :
  outcome (try_catch m h) = Ok a →
  outcome m = Ok a ∨ ∃ e, outcome m = Throw e ∧ outcome (h e) = Ok a.
Proof.
  destruct m as [[a'|e] t]; simpl; [by left|].
  intros H. right. exists e. split; [done|]. by destruct (h e).
Qed.

Lemma FsCacheKeyed_getRestoreKey_elem env paths c cross keys key :
  outcome (FsCacheKeyed.getRestoreKey env keys paths c cross) = Ok (Some key) →
  key ∈ keys.
Proof.
  induction keys as [|k keys IH]; [done|].
  destruct (listing_yields env (FsCacheKeyed.restoreDirOf env paths c cross k))
    eqn:Hk.
  - destruct (FsCacheKeyed_getRestoreKey_hit env k keys paths c cross Hk)
      as [-> _].
    intros [= ->]. by left.
  - destruct (FsCacheKeyed_getRestoreKey_miss env k keys paths c cross Hk)
      as [-> _].
    intros H. right. by apply IH.
Qed.

(** In the second variant a successful restore returns one of the caller's
    keys. *)
Lemma FsCacheKeyed_restoreCache_returns_matched_key
    env paths primaryKey restoreKeys cross key :
  outcome (FsCacheKeyed.restoreCache env paths primaryKey restoreKeys cross)
  = Ok (Some key) →
  key ∈ primaryKey :: default [] restoreKeys.
Proof.
  unfold FsCacheKeyed.restoreCache. intros H.
  repeat (apply outcome_bind_ok in H as (? & _ & H)).
  apply outcome_try_catch_ok in H as [H|(e & _ & H)].
  - unfold FsCacheKeyed.restoreBody in H.
    apply outcome_bind_ok in H as (found & Hfound & H).
    apply outcome_bind_ok in H as (? & _ & H).
    destruct found as [restoreKey|]; [|done].
    repeat (apply outcome_bind_ok in H as (? & _ & H)).
    injection H as ->.
    by eapply FsCacheKeyed_getRestoreKey_elem.
  - destruct (name_is e ValidationError_name); [done|].
    apply outcome_bind_ok in H as (? & _ & H). done.
Qed.

(** C2 at a failing input.  A backend holds one archive, ["cache.tzst"],
    under key ["k"]; [restoreCache] of [src/fsCache/index.ts] is called with
    the single key ["k"], finds and unpacks the archive, and returns
    ["cache.tzst"], the name of the child, which is none of the caller's
    keys. *)
Theorem FsCacheIndex_restoreCache_returns_child_name :
  outcome (FsCacheIndex.restoreCache one_archive_env ["target"] "k" None false)
  = Ok (Some "cache.tzst")
  ∧ ExtractTar
      (join "/" [FsCacheIndex.restoreDirOf one_archive_env ["target"] Zstd
                   false "k"; "cache.tzst"])
    ∈ trace (FsCacheIndex.restoreCache one_archive_env ["target"] "k" None false)
  ∧ ("cache.tzst" ∉ ["k"])
  ∧ outcome (FsCacheKeyed.restoreCache one_archive_env ["target"] "k" None false)
    = Ok (Some "k").
Proof.
  split; [vm_compute; reflexivity|].
  split; [|split; [|vm_compute; reflexivity]].
  - vm_compute. do 6 right. left.
  - intros Hin. apply list_elem_of_singleton in Hin. done.
Qed.

(** ** Outcome and trace of composed computations *)

Lemma outcome_bind_of_ok {A B} (m : M A) (k : A → M B) (a : A) :
  outcome m = Ok a → outcome (bind m k) = outcome (k a).
Proof. destruct m as [r t]. simpl. intros ->. by destruct (k a). Qed.

Lemma trace_bind_of_ok {A B} (m : M A) (k : A → M B) (a : A) :
  outcome m = Ok a → trace (bind m k) = trace m ++ trace (k a).
Proof. destruct m as [r t]. simpl. intros ->. by destruct (k a). Qed.

Lemma outcome_try_catch_of_throw {A} (m : M A) (h : thrown → M A) e :
  outcome m = Throw e → outcome (try_catch m h) = outcome (h e).
Proof. destruct m as [r t]. simpl. intros ->. by destruct (h e). Qed.

Lemma trace_try_catch_of_throw {A} (m : M A) (h : thrown → M A) e :
  outcome m = Throw e → trace (try_catch m h) = trace m ++ trace (h e).
Proof. destruct m as [r t]. simpl. intros ->. by destruct (h e). Qed.

Lemma outcome_try_finally {A} (m : M A) (f : M unit) u :
  outcome f = Ok u → outcome (try_finally m f) = outcome m.
Proof. destruct m as [r t], f as [r' t']. simpl. by intros ->. Qed.

Lemma trace_try_finally {A} (m : M A) (f : M unit) :
  trace (try_finally m f) = trace m ++ trace f.
Proof. destruct m as [r t], f as [[]]; done. Qed.

(** A guarded clean-up whose handler only logs does not throw. *)
Lemma cleanup_returns (m : M unit) (msg : thrown → string) :
  ∃ u, outcome (try_catch m (λ error, emit (Debug (msg error)))) = Ok u.
Proof. destruct m as [[u|e] t]; simpl; eauto. Qed.

(** ** A restore that finds nothing *)

Lemma FsCacheIndex_restoreBody_no_match env keys paths c cross :
  outcome (FsCacheIndex.getCacheEntry env keys paths c cross) = Ok None →
  outcome (FsCacheIndex.restoreBody env keys paths c cross)
  = Throw (JsString "cache entry not found").
Proof.
  intros H. unfold FsCacheIndex.restoreBody.
  by rewrite (outcome_bind_of_ok _ _ _ H).
Qed.

Lemma FsCacheKeyed_restoreBody_no_match env keys paths c cross :
  outcome (FsCacheKeyed.getRestoreKey env keys paths c cross) = Ok None →
  outcome (FsCacheKeyed.restoreBody env keys paths c cross)
  = Throw (JsString "cache entry not found").
Proof.
  intros H. unfold FsCacheKeyed.restoreBody.
  rewrite (outcome_bind_of_ok _ _ _ H). by rewrite outcome_bind_emit.
Qed.

(** The handler of [restoreCache] on the thrown string. *)
Lemma restore_handler_not_found {A} (m : M (option A)) :
  outcome m = Throw (JsString "cache entry not found") →
  outcome
    (try_catch m
       (λ error,
          if name_is error ValidationError_name then throw error
          else
            emit (Warning ("Failed to restore: " +:+ errMessage error)) ;;;
            ret None))
  = Ok None
  ∧ Warning "Failed to restore: undefined"
    ∈ trace
        (try_catch m
           (λ error,
              if name_is error ValidationError_name then throw error
              else
                emit (Warning ("Failed to restore: " +:+ errMessage error)) ;;;
                ret None)).
Proof.
  intros H. split.
  - by rewrite (outcome_try_catch_of_throw _ _ _ H).
  - rewrite (trace_try_catch_of_throw _ _ _ H).
    apply elem_of_app. right. simpl. by left.
Qed.

(** C6. With a non-empty path list, at most 10 keys and every key valid, a
    [restoreCache] call in which no key's directory lists a child returns
    [undefined] (here [Ok None]): it does not raise, and the miss is reported
    as a warning.  This covers the backend whose root does not exist, where
    every listing fails. *)
Theorem restoreCache_graceful_miss
    (env : Env) (paths : list string) (primaryKey : string)
    (restoreKeys : option (list string)) (cross : bool) :
  let keys := primaryKey :: default [] restoreKeys in
  paths ≠ [] → (length keys ≤ 10)%nat → Forall key_ok keys →
  ((∀ k, k ∈ keys →
      listing_yields env
        (FsCacheIndex.restoreDirOf env paths (getCompressionMethod env) cross k)
      = false) →
   outcome (FsCacheIndex.restoreCache env paths primaryKey restoreKeys cross)
   = Ok None
   ∧ Warning "Failed to restore: undefined"
     ∈ trace (FsCacheIndex.restoreCache env paths primaryKey restoreKeys cross))
  ∧ ((∀ k, k ∈ keys →
      listing_yields env
        (FsCacheKeyed.restoreDirOf env paths (getCompressionMethod env) cross k)
      = false) →
     outcome (FsCacheKeyed.restoreCache env paths primaryKey restoreKeys cross)
     = Ok None
     ∧ Warning "Failed to restore: undefined"
       ∈ trace (FsCacheKeyed.restoreCache env paths primaryKey restoreKeys cross))
  ∧ ((∀ dir, ∃ e, readdir_result env dir = Throw e) →
     outcome (FsCacheIndex.restoreCache env paths primaryKey restoreKeys cross)
     = Ok None
     ∧ outcome (FsCacheKeyed.restoreCache env paths primaryKey restoreKeys cross)
       = Ok None).
Proof.
  intros keys Hp Hl Hk.
  assert (index : (∀ k, k ∈ keys →
      listing_yields env
        (FsCacheIndex.restoreDirOf env paths (getCompressionMethod env) cross k)
      = false) →
   outcome (FsCacheIndex.restoreCache env paths primaryKey restoreKeys cross)
   = Ok None
   ∧ Warning "Failed to restore: undefined"
     ∈ trace (FsCacheIndex.restoreCache env paths primaryKey restoreKeys cross)).
  { intros Hmiss.
    rewrite FsCacheIndex_restoreCache_valid by done. fold keys.
    apply FsCacheIndex_getCacheEntry_no_match in Hmiss as [Hnone _].
    apply FsCacheIndex_restoreBody_no_match in Hnone.
    apply (restore_handler_not_found) in Hnone as [Ho Ht].
    rewrite !outcome_bind_emit, !trace_bind_emit.
    split; [exact Ho|]. do 2 right. exact Ht. }
  assert (keyed : (∀ k, k ∈ keys →
      listing_yields env
        (FsCacheKeyed.restoreDirOf env paths (getCompressionMethod env) cross k)
      = false) →
     outcome (FsCacheKeyed.restoreCache env paths primaryKey restoreKeys cross)
     = Ok None
     ∧ Warning "Failed to restore: undefined"
       ∈ trace (FsCacheKeyed.restoreCache env paths primaryKey restoreKeys cross)).
  { intros Hmiss.
    rewrite FsCacheKeyed_restoreCache_valid by done. fold keys.
    apply FsCacheKeyed_getRestoreKey_no_match in Hmiss as [Hnone _].
    apply FsCacheKeyed_restoreBody_no_match in Hnone.
    apply (restore_handler_not_found) in Hnone as [Ho Ht].
    rewrite !outcome_bind_emit, !trace_bind_emit.
    split; [exact Ho|]. do 2 right. exact Ht. }
  split; [exact index|]. split; [exact keyed|].
  intros Hroot.
  assert (∀ dir, listing_yields env dir = false) as Hall.
  { intros dir. unfold listing_yields. by destruct (Hroot dir) as [e ->]. }
  split; [apply index|apply keyed]; intros; apply Hall.
Qed.

Lemma restoreCache_graceful_miss_witness :
  outcome (FsCacheIndex.restoreCache quiet_env ["target"] "k" (Some ["k-"])
             false) = Ok None
  ∧ outcome (FsCacheKeyed.restoreCache quiet_env ["target"] "k" (Some ["k-"])
               false) = Ok None.
Proof.
  destruct (restoreCache_graceful_miss quiet_env ["target"] "k" (Some ["k-"])
              false) as (_ & _ & Hroot).
  - done.
  - simpl. lia.
  - simpl. repeat (constructor; [by split; [simpl; lia|]|]). constructor.
  - apply Hroot. intros dir. eexists. reflexivity.
Defined.

(** ** Saving *)

(** C7. With a non-empty pattern list and a valid key, when the patterns
    resolve to no path at all, [saveCache] raises an [Error] to its caller:
    the outcome is that thrown error and not the number [-1]; its name is
    ["Error"], not ["ValidationError"]; and nothing was created or packed,
    the trace ends with the two debug lines that follow the resolution. *)
Theorem saveCache_nothing_resolved
    (env : Env) (paths : list string) (key : string) (cross : bool) :
  paths ≠ [] → key_ok key → resolvePaths_result env paths = Ok [] →
  FsCacheIndex.saveCache env paths key cross
  = (Throw (Error no_paths_message),
     [ResolvePaths paths; Debug "Cache Paths:"; Debug (JSON_stringify env [])])
  ∧ FsCacheKeyed.saveCache env paths key cross
    = (Throw (Error no_paths_message),
       [ResolvePaths paths; Debug "Cache Paths:";
        Debug (JSON_stringify env [])])
  ∧ name_is (Error no_paths_message) ValidationError_name = false
  ∧ ¬ raises_ValidationError (FsCacheIndex.saveCache env paths key cross)
  ∧ ¬ raises_ValidationError (FsCacheKeyed.saveCache env paths key cross).
Proof.
  intros Hp Hk Hres. destruct paths as [|p paths]; [done|].
  assert (FsCacheIndex.saveCache env (p :: paths) key cross
          = (Throw (Error no_paths_message),
             [ResolvePaths (p :: paths); Debug "Cache Paths:";
              Debug (JSON_stringify env [])])) as Hindex.
  { unfold FsCacheIndex.saveCache.
    rewrite checkPaths_cons, bind_ret_l, checkKey_ok, bind_ret_l by done.
    unfold resolvePaths, call. rewrite Hres. reflexivity. }
  assert (FsCacheKeyed.saveCache env (p :: paths) key cross
          = (Throw (Error no_paths_message),
             [ResolvePaths (p :: paths); Debug "Cache Paths:";
              Debug (JSON_stringify env [])])) as Hkeyed.
  { unfold FsCacheKeyed.saveCache.
    rewrite checkPaths_cons, bind_ret_l, checkKey_ok, bind_ret_l by done.
    unfold resolvePaths, call. rewrite Hres. reflexivity. }
  split; [exact Hindex|]. split; [exact Hkeyed|]. split; [reflexivity|].
  split; intros [m Hm]; [rewrite Hindex in Hm|rewrite Hkeyed in Hm]; done.
Qed.

Lemma saveCache_nothing_resolved_witness :
  outcome (FsCacheIndex.saveCache nothing_resolves_env ["target"] "k" false)
  = Throw (Error no_paths_message)
  ∧ outcome (FsCacheKeyed.saveCache nothing_resolves_env ["target"] "k" false)
    = Throw (Error no_paths_message).
Proof.
  destruct (saveCache_nothing_resolved nothing_resolves_env ["target"] "k"
              false) as (Hindex & Hkeyed & _).
  - done.
  - split; [simpl; lia|reflexivity].
  - reflexivity.
  - by rewrite Hindex, Hkeyed.
Defined.

(** The [catch] of [saveCache], by the name of what was thrown. *)
Lemma FsCacheIndex_saveCatch_cases e :
  (name_is e ValidationError_name = true →
     FsCacheIndex.saveCatch (-1) e = throw e)
  ∧ (name_is e ValidationError_name = false →
     name_is e ReserveCacheError_name = true →
     FsCacheIndex.saveCatch (-1) e
     = (Ok (-1), [Info ("Failed to save: " +:+ errMessage e)]))
  ∧ (name_is e ValidationError_name = false →
     name_is e ReserveCacheError_name = false →
     FsCacheIndex.saveCatch (-1) e
     = (Ok (-1), [Warning ("Failed to save: " +:+ errMessage e)])).
Proof.
  unfold FsCacheIndex.saveCatch.
  destruct (name_is e ValidationError_name),
    (name_is e ReserveCacheError_name); done.
Qed.

Lemma FsCacheKeyed_saveCatch_cases e :
  (name_is e ValidationError_name = true →
     FsCacheKeyed.saveCatch (-1) e = throw e)
  ∧ (name_is e ValidationError_name = false →
     name_is e ReserveCacheError_name = true →
     FsCacheKeyed.saveCatch (-1) e
     = (Ok (-1), [Info ("Failed to save: " +:+ errMessage e)]))
  ∧ (name_is e ValidationError_name = false →
     name_is e ReserveCacheError_name = false →
     FsCacheKeyed.saveCatch (-1) e
     = (Ok (-1), [Warning ("Failed to save: " +:+ errMessage e)])).
Proof.
  unfold FsCacheKeyed.saveCatch.
  destruct (name_is e ValidationError_name),
    (name_is e ReserveCacheError_name); done.
Qed.


Lemma swallow_returns (m : M unit) :
  outcome (try_catch m (λ _, ret ())) = Ok ().
Proof. by destruct m as [[[]|e] t]. Qed.






(** ** The fingerprint *)

Lemma append_inv_head (s a b : string) : s +:+ a = s +:+ b → a = b.
Proof. induction s as [|c s IH]; simpl; [done|]. intros [= H]. by apply IH. Qed.

Lemma length_append (a b : string) :
  String.length (a +:+ b) = (String.length a + String.length b)%nat.
Proof. induction a as [|c a IH]; simpl; [done|]. by rewrite IH. Qed.

Lemma append_inv_tail (a b s : string) : a +:+ s = b +:+ s → a = b.
Proof.
  revert b. induction a as [|c a IH]; intros [|d b]; simpl; [done| | |].
  - intros H. apply (f_equal String.length) in H.
    simpl in H. rewrite !length_append in H. simpl in H. lia.
  - intros H. apply (f_equal String.length) in H.
    simpl in H. rewrite !length_append in H. simpl in H. lia.
  - intros [= -> H]. f_equal. by apply IH.
Qed.

Lemma join_cons sep x l : l ≠ [] → join sep (x :: l) = x +:+ sep +:+ join sep l.
Proof. by destruct l. Qed.

Lemma append_cons c (s t : string) : String c s +:+ t = String c (s +:+ t).
Proof. reflexivity. Qed.

Lemma append_assoc (a b c : string) : (a +:+ b) +:+ c = a +:+ (b +:+ c).
Proof.
  induction a as [|x a IH]; [done|]. rewrite !append_cons. by f_equal.
Qed.

Lemma join_app sep l1 l2 :
  l1 ≠ [] → l2 ≠ [] →
  join sep (l1 ++ l2) = join sep l1 +:+ sep +:+ join sep l2.
Proof.
  intros H1 H2. induction l1 as [|x l1 IH]; [done|].
  destruct l1 as [|y l1].
  - simpl. by destruct l2.
  - change ((x :: y :: l1) ++ l2) with (x :: ((y :: l1) ++ l2)).
    rewrite join_cons by done. rewrite IH by done.
    rewrite (join_cons sep x (y :: l1)) by done.
    by rewrite !append_assoc.
Qed.

Lemma versionComponents_tail env paths c cross :
  versionComponents env paths c cross = paths ++ versionTail env c cross.
Proof.
  unfold versionTail, versionComponents.
  destruct c, (is_win32 env && negb cross); simpl; by rewrite <- ?app_assoc.
Qed.

Lemma versionTail_nonempty env c cross : versionTail env c cross ≠ [].
Proof.
  unfold versionTail, versionComponents.
  destruct c, (is_win32 env && negb cross); done.
Qed.

Lemma versionTail_bar_free env c cross :
  Forall bar_free (versionTail env c cross).
Proof.
  unfold versionTail, versionComponents.
  destruct c as [[]|], (is_win32 env && negb cross); simpl;
    repeat constructor.
Qed.

Lemma versionTail_compression env c c' cross :
  c ≠ c' →
  join "|" (versionTail env c cross) ≠ join "|" (versionTail env c' cross).
Proof.
  unfold versionTail, versionComponents. intros Hne.
  destruct c as [[]|], c' as [[]|], (is_win32 env && negb cross);
    simpl; done.
Qed.

(** The text hashed for [paths] and for [paths'] differ as soon as the joins
    of the two component lists after a common prefix do. *)
Lemma versionInput_single_path env pre p p' post c cross :
  p ≠ p' →
  versionInput env (pre ++ p :: post) c cross
  ≠ versionInput env (pre ++ p' :: post) c cross.
Proof.
  intros Hne. unfold versionInput. rewrite !versionComponents_tail.
  rewrite <- !app_assoc, <- !app_comm_cons.
  pose proof (versionTail_nonempty env c cross) as Ht.
  assert (post ++ versionTail env c cross ≠ []) as Hrest
    by (by destruct post, (versionTail env c cross)).
  intros H. destruct pre as [|q pre].
  - simpl app in H. rewrite !join_cons in H by done.
    by apply append_inv_tail in H.
  - rewrite !(join_app "|" (q :: pre)) in H by done.
    do 2 apply append_inv_head in H.
    rewrite !join_cons in H by done.
    by apply append_inv_tail in H.
Qed.

Lemma versionInput_compression env paths c c' cross :
  c ≠ c' →
  versionInput env paths c cross ≠ versionInput env paths c' cross.
Proof.
  intros Hne. unfold versionInput. rewrite !versionComponents_tail.
  pose proof (versionTail_compression env c c' cross Hne) as Ht.
  intros H. destruct paths as [|q paths]; [done|].
  rewrite !(join_app "|" (q :: paths)) in H
    by (done || apply versionTail_nonempty).
  by do 2 apply append_inv_head in H.
Qed.

(** Joining with [|] loses nothing when no component contains [|]. *)
Lemma bar_free_split (x y r1 r2 : string) :
  bar_free x → bar_free y →
  (r1 = EmptyString ∨ ∃ r, r1 = String bar r) →
  (r2 = EmptyString ∨ ∃ r, r2 = String bar r) →
  x +:+ r1 = y +:+ r2 → x = y ∧ r1 = r2.
Proof.
  unfold bar_free. revert y.
  induction x as [|c x IH]; intros [|d y] Hx Hy H1 H2; simpl in Hx, Hy.
  - done.
  - intros H. change (EmptyString +:+ r1) with r1 in H. rewrite append_cons in H.
    destruct H1 as [->|[r ->]]; [done|]. injection H as <- _.
    by rewrite Ascii.eqb_refl in Hy.
  - intros H. change (EmptyString +:+ r2) with r2 in H. rewrite append_cons in H.
    destruct H2 as [->|[r ->]]; [done|]. injection H as -> _.
    by rewrite Ascii.eqb_refl in Hx.
  - rewrite !append_cons. intros [= -> H].
    apply orb_false_iff in Hx as [_ Hx]. apply orb_false_iff in Hy as [_ Hy].
    destruct (IH y Hx Hy H1 H2 H) as [-> ->]. done.
Qed.

Lemma join_bar_free_inj (l1 l2 : list string) :
  Forall bar_free l1 → Forall bar_free l2 → l1 ≠ [] → l2 ≠ [] →
  join "|" l1 = join "|" l2 → l1 = l2.
Proof.
  intros H1. revert l2.
  induction H1 as [|x l1 Hx Hl1 IH]; intros l2 H2 Hn1 Hn2; [done|].
  destruct H2 as [|y l2 Hy Hl2]; [done|].
  intros H.
  assert (∀ z (l : list string),
            join "|" (z :: l)
            = z +:+ match l with [] => EmptyString | _ => "|" +:+ join "|" l end) as Hj.
  { intros z [|w l]; simpl; [|done].
    clear. induction z as [|c z IHz]; [done|].
    rewrite append_cons. by f_equal. }
  rewrite !Hj in H.
  apply bar_free_split in H as [-> Hrest]; [|done|done| |].
  - f_equal. destruct l1 as [|a l1], l2 as [|b l2]; [done|done|done|].
    apply IH; [done|done|done|].
    by apply (append_inv_head "|") in Hrest.
  - destruct l1; [by left|right]. eexists. reflexivity.
  - destruct l2; [by left|right]. eexists. reflexivity.
Qed.

Lemma versionInput_bar_free env paths paths' c cross :
  Forall bar_free paths → Forall bar_free paths' → paths ≠ paths' →
  versionInput env paths c cross ≠ versionInput env paths' c cross.
Proof.
  intros Hp Hp' Hne H. unfold versionInput in H.
  rewrite !versionComponents_tail in H.
  pose proof (versionTail_nonempty env c cross) as Ht.
  apply join_bar_free_inj in H.
  - by apply app_inv_tail in H.
  - apply Forall_app. split; [done|apply versionTail_bar_free].
  - apply Forall_app. split; [done|apply versionTail_bar_free].
  - by destruct paths, (versionTail env c cross).
  - by destruct paths', (versionTail env c cross).
Qed.

Lemma fingerprints_differ_intro env paths c paths' c' cross :
  versionInput env paths c cross ≠ versionInput env paths' c' cross →
  fingerprints_differ env paths c paths' c' cross.
Proof.
  intros Hne. split; [done|].
  intros Hcol Heq. apply Hne, Hcol. exact Heq.
Qed.

(** C8 (as amended). Replacing one path of the list by a different one, or
    the compression method by a different one, changes the text that
    [getCacheVersion] hashes, and with it the fingerprint unless the hash
    collides on the two texts.  Reordering the paths into a different
    sequence does the same provided no path contains the separator [|]. *)
Theorem fingerprint_sensitivity (env : Env) (cross : bool) :
  (∀ pre p p' post c,
     p ≠ p' →
     fingerprints_differ env (pre ++ p :: post) c (pre ++ p' :: post) c cross)
  ∧ (∀ paths c c',
     c ≠ c' → fingerprints_differ env paths c paths c' cross)
  ∧ (∀ paths paths' c,
     paths ≡ₚ paths' → paths ≠ paths' → Forall bar_free paths →
     fingerprints_differ env paths c paths' c cross).
Proof.
  split; [|split].
  - intros pre p p' post c Hne. apply fingerprints_differ_intro.
    by apply versionInput_single_path.
  - intros paths c c' Hne. apply fingerprints_differ_intro.
    by apply versionInput_compression.
  - intros paths paths' c Hperm Hne Hfree. apply fingerprints_differ_intro.
    apply versionInput_bar_free; [done| |done].
    by rewrite <- Hperm.
Qed.

Lemma fingerprint_sensitivity_witness :
  getCacheVersion quiet_env ["src"; "target"] (Some Zstd) false
  ≠ getCacheVersion quiet_env ["src"; "build"] (Some Zstd) false
  ∧ getCacheVersion quiet_env ["src"; "target"] (Some Zstd) false
    ≠ getCacheVersion quiet_env ["src"; "target"] (Some Gzip) false
  ∧ getCacheVersion quiet_env ["src"; "target"] (Some Zstd) false
    ≠ getCacheVersion quiet_env ["target"; "src"] (Some Zstd) false.
Proof.
  destruct (fingerprint_sensitivity quiet_env false) as (Hpath & Hc & Horder).
  split; [|split].
  - apply (Hpath ["src"] "target" "build" [] (Some Zstd)); [done|].
    intros H. exact H.
  - apply (Hc ["src"; "target"] (Some Zstd) (Some Gzip)); [done|].
    intros H. exact H.
  - apply (Horder ["src"; "target"] ["target"; "src"] (Some Zstd)).
    + apply Permutation_swap.
    + done.
    + repeat constructor.
    + intros H. exact H.
Defined.

(** C8 as stated fails for reordering.  The path lists [["a|a"; "a"]] and
    [["a"; "a|a"]] are reorderings of each other and differ, yet the
    components of both join to the same text, so [getCacheVersion] gives
    the same fingerprint for both, whatever the hash. *)
Lemma fingerprint_reordering_counterexample :
  ["a|a"; "a"] ≡ₚ ["a"; "a|a"]
  ∧ ["a|a"; "a"] ≠ ["a"; "a|a"]
  ∧ versionInput quiet_env ["a|a"; "a"] (Some Zstd) false
    = versionInput quiet_env ["a"; "a|a"] (Some Zstd) false
  ∧ (∀ env c cross,
       getCacheVersion env ["a|a"; "a"] c cross
       = getCacheVersion env ["a"; "a|a"] c cross).
Proof.
  split; [apply Permutation_swap|]. split; [done|]. split; [reflexivity|].
  intros env c cross. unfold getCacheVersion, versionInput, versionComponents.
  by destruct c as [[]|], (is_win32 env && negb cross).
Qed.

(** ** [getCacheVersion] and the caller's array *)

Lemma Array_push_other (a b : nat) x (h : store) :
  a ≠ b → Array_push a x h !! b = h !! b.
Proof. intros Hne. unfold Array_push. by rewrite lookup_alter_ne. Qed.

Lemma Array_push_same (a : nat) x (h : store) l :
  h !! a = Some l → Array_push a x h !! a = Some (l ++ [x]).
Proof. intros Hl. unfold Array_push. by rewrite lookup_alter_eq, Hl. Qed.

(** Every array of the store that existed before the call is the same after
    it; the components were pushed onto the copy. *)
Lemma getCacheVersion_store_frame env (a : nat) c cross (h : store) b :
  b ∈ dom h →
  (getCacheVersion_store env a c cross h).2 !! b = h !! b.
Proof.
  intros Hb. unfold getCacheVersion_store, Array_slice.
  set (fr := fresh (dom h)).
  assert (fr ≠ b) as Hne.
  { intros Heq. apply (is_fresh (dom h)). fold fr. by rewrite Heq. }
  cbn [snd].
  rewrite Array_push_other by done.
  destruct (is_win32 env && negb cross), c;
    rewrite ?Array_push_other by done; by rewrite lookup_insert_ne.
Qed.

Lemma getCacheVersion_store_value env (a : nat) c cross (h : store) paths :
  h !! a = Some paths →
  (getCacheVersion_store env a c cross h).1
  = getCacheVersion env paths c cross.
Proof.
  intros Ha. unfold getCacheVersion_store, Array_slice.
  set (fr := fresh (dom h)). cbn [fst].
  unfold getCacheVersion, versionInput, versionComponents. rewrite Ha.
  cbn [default]. do 2 f_equal.
  assert (<[fr:=paths]> h !! fr = Some paths) as H0
    by apply lookup_insert_eq.
  destruct c as [cm|], (is_win32 env && negb cross).
  - erewrite Array_push_same; [done|].
    erewrite Array_push_same; [done|].
    by erewrite Array_push_same.
  - erewrite Array_push_same; [done|].
    by erewrite Array_push_same.
  - erewrite Array_push_same; [done|].
    by erewrite Array_push_same.
  - by erewrite Array_push_same.
Qed.

(** C9. [getCacheVersion] does not change the array it is given.  When the
    caller's array at address [a] holds [paths], after the call the store
    still holds [paths] at [a], element for element; every other array the
    caller had is unchanged too; and the fingerprint returned is the one
    computed from [paths].  The components are pushed onto the copy made by
    [slice]. *)
Theorem getCacheVersion_keeps_paths
    (env : Env) (a : nat) (c : option CompressionMethod) (cross : bool)
    (h : store) (paths : list string) :
  h !! a = Some paths →
  (getCacheVersion_store env a c cross h).2 !! a = Some paths
  ∧ (∀ b, b ∈ dom h → (getCacheVersion_store env a c cross h).2 !! b = h !! b)
  ∧ (getCacheVersion_store env a c cross h).1
    = getCacheVersion env paths c cross.
Proof.
  intros Ha. split; [|split].
  - rewrite getCacheVersion_store_frame; [done|].
    apply elem_of_dom. by exists paths.
  - intros b. apply getCacheVersion_store_frame.
  - by apply getCacheVersion_store_value.
Qed.

Lemma getCacheVersion_keeps_paths_witness :
  (getCacheVersion_store quiet_env 0 (Some Zstd) false caller_store).2 !! 0%nat
  = Some ["src"; "target"]
  ∧ (getCacheVersion_store quiet_env 0 (Some Zstd) false caller_store).1
    = "src|target|zstd|1.0".
Proof.
  destruct (getCacheVersion_keeps_paths quiet_env 0 (Some Zstd) false
              caller_store ["src"; "target"]) as (Hsame & _ & Hvalue).
  - reflexivity.
  - split; [exact Hsame|]. rewrite Hvalue. reflexivity.
Defined.

(* ================================================================== *)
(** * Further properties of the two variants *)

(** ** What [restoreCache] can raise *)

Lemma outcome_bind_throw {A B} (m : M A) (k : A → M B) (e : thrown) :
  outcome (bind m k) = Throw e →
  outcome m = Throw e ∨ ∃ a, outcome m = Ok a ∧ outcome (k a) = Throw e.
Proof.
  destruct m as [[a|e'] t]; simpl; [|intros [= ->]; by left].
  intros H. right. exists a. split; [done|]. by destruct (k a).
Qed.

Lemma outcome_try_catch_throw {A} (m : M A) (h : thrown → M A) (e : thrown) :
  outcome (try_catch m h) = Throw e →
  ∃ e0, outcome m = Throw e0 ∧ outcome (h e0) = Throw e.
Proof.
  destruct m as [[a|e0] t]; simpl; [done|].
  intros H. exists e0. split; [done|]. by destruct (h e0).
Qed.

Lemma checkPaths_throw paths e :
  outcome (checkPaths paths) = Throw e → name_is e ValidationError_name = true.
Proof. destruct paths; cbn; [|done]. by intros [= <-]. Qed.

Lemma checkKey_throw key e :
  outcome (checkKey key) = Throw e → name_is e ValidationError_name = true.
Proof.
  destruct (key_ok_dec key) as [Hok|Hno].
  - by rewrite checkKey_ok.
  - destruct (checkKey_not_ok key Hno) as [m ->]. by intros [= <-].
Qed.

Lemma for_of_checkKey_throw keys e :
  outcome (for_of keys checkKey) = Throw e →
  name_is e ValidationError_name = true.
Proof.
  induction keys as [|key keys IH]; [done|].
  cbn [for_of]. intros H.
  apply outcome_bind_throw in H as [H|(? & _ & H)].
  - by apply checkKey_throw in H.
  - by apply IH.
Qed.

(** The handler of [restoreCache] lets through what is named
    [ValidationError] and nothing else. *)
Lemma restore_handler_throw {A} (m : M (option A)) e :
  outcome
    (try_catch m
       (λ error,
          if name_is error ValidationError_name then throw error
          else
            emit (Warning ("Failed to restore: " +:+ errMessage error)) ;;;
            ret None))
  = Throw e →
  name_is e ValidationError_name = true.
Proof.
  intros H. apply outcome_try_catch_throw in H as (e0 & _ & H).
  destruct (name_is e0 ValidationError_name) eqn:Hname.
  - by injection H as <-.
  - by rewrite outcome_bind_emit in H.
Qed.

(** X1. Whatever [restoreCache] raises is named ["ValidationError"]: every
    other failure, of the lookup, of the archive tool or of the file system,
    is kept from the caller.  This holds for all inputs and surroundings, in
    both variants. *)
Theorem restoreCache_raises_only_ValidationError
    (env : Env) (paths : list string) (primaryKey : string)
    (restoreKeys : option (list string)) (cross : bool) (e : thrown) :
  (outcome (FsCacheIndex.restoreCache env paths primaryKey restoreKeys cross)
   = Throw e → name_is e ValidationError_name = true)
  ∧ (outcome (FsCacheKeyed.restoreCache env paths primaryKey restoreKeys cross)
     = Throw e → name_is e ValidationError_name = true).
Proof.
  split.
  - unfold FsCacheIndex.restoreCache. intros H.
    apply outcome_bind_throw in H as [H|(? & _ & H)];
      [by apply checkPaths_throw in H|].
    rewrite !outcome_bind_emit in H.
    apply outcome_bind_throw in H as [H|(? & _ & H)].
    { destruct (_ <? _)%nat; [|done]. by injection H as <-. }
    apply outcome_bind_throw in H as [H|(? & _ & H)];
      [by apply for_of_checkKey_throw in H|].
    by apply restore_handler_throw in H.
  - unfold FsCacheKeyed.restoreCache. intros H.
    apply outcome_bind_throw in H as [H|(? & _ & H)];
      [by apply checkPaths_throw in H|].
    rewrite !outcome_bind_emit in H.
    apply outcome_bind_throw in H as [H|(? & _ & H)].
    { destruct (_ <? _)%nat; [|done]. by injection H as <-. }
    apply outcome_bind_throw in H as [H|(? & _ & H)];
      [by apply for_of_checkKey_throw in H|].
    by apply restore_handler_throw in H.
Qed.

Lemma restoreCache_raises_only_ValidationError_witness :
  name_is (ValidationError "rejected by the archive tool")
    ValidationError_name = true.
Proof.
  destruct (restoreCache_raises_only_ValidationError
              (corrupt_archive_env (ValidationError "rejected by the archive tool"))
              ["target"] "k" None false
              (ValidationError "rejected by the archive tool")) as [_ Hkeyed].
  apply Hkeyed. vm_compute. reflexivity.
Defined.

(** ** Validation comes before any call *)



Lemma trace_bind_throw_l {A B} (e : thrown) (k : A → M B) :
  trace (bind (throw e) k) = [].
Proof. reflexivity. Qed.






(** ** What a computation never does *)

Lemma never_ret {A} p (a : A) : never p (ret a).
Proof. constructor. Qed.

Lemma never_throw {A} p e : never p (@throw A e).
Proof. constructor. Qed.

Lemma never_lift {A} p (r : result A) : never p (lift r).
Proof. constructor. Qed.

Lemma never_emit p ev : p ev = false → never p (emit ev).
Proof. intros H. by repeat constructor. Qed.

Lemma never_call {A} p ev (r : result A) : p ev = false → never p (call ev r).
Proof. intros H. by repeat constructor. Qed.

Lemma never_bind {A B} p (m : M A) (k : A → M B) :
  never p m → (∀ a, never p (k a)) → never p (bind m k).
Proof.
  unfold never. destruct m as [[a|e] t]; simpl; [|done].
  intros Hm Hk. specialize (Hk a). destruct (k a) as [r t']. simpl in *.
  by apply Forall_app.
Qed.

Lemma never_try_catch {A} p (m : M A) (h : thrown → M A) :
  never p m → (∀ e, never p (h e)) → never p (try_catch m h).
Proof.
  unfold never. destruct m as [[a|e] t]; simpl; [done|].
  intros Hm Hh. specialize (Hh e). destruct (h e) as [r t']. simpl in *.
  by apply Forall_app.
Qed.

Lemma never_try_finally {A} p (m : M A) (f : M unit) :
  never p m → never p f → never p (try_finally m f).
Proof.
  unfold never. rewrite trace_try_finally. intros. by apply Forall_app.
Qed.

Lemma never_checkPaths p paths : never p (checkPaths paths).
Proof. destruct paths; constructor. Qed.

Lemma never_checkKey p key : never p (checkKey key).
Proof.
  destruct (key_ok_dec key) as [Hok|Hno].
  - rewrite checkKey_ok by done. constructor.
  - destruct (checkKey_not_ok key Hno) as [m ->]. constructor.
Qed.

Lemma never_for_of_checkKey p keys : never p (for_of keys checkKey).
Proof.
  induction keys as [|key keys IH]; [constructor|].
  cbn [for_of]. apply never_bind; [apply never_checkKey|done].
Qed.

Lemma never_elem_of {A} p (m : M A) ev :
  never p m → ev ∈ trace m → p ev = false.
Proof. unfold never. rewrite Forall_forall. auto. Qed.

Ltac never_step :=
  lazymatch goal with
  | |- never _ (ret _) => apply never_ret
  | |- never _ (throw _) => apply never_throw
  | |- never _ (emit _) => apply never_emit; reflexivity
  | |- never _ (call _ _) => apply never_call; reflexivity
  | |- never _ (checkPaths _) => apply never_checkPaths
  | |- never _ (checkKey _) => apply never_checkKey
  | |- never _ (for_of _ checkKey) => apply never_for_of_checkKey
  | |- never _ (bind _ _) => apply never_bind; [|intros ?; cbv beta]
  | |- never _ (try_catch _ _) => apply never_try_catch; [|intros ?; cbv beta]
  | |- never _ (try_finally _ _) => apply never_try_finally
  | |- never _ (if ?b then _ else _) => destruct b
  | |- never _ (match ?x with _ => _ end) => destruct x
  end.

Ltac never_calls :=
  unfold readdir, mkdir, resolvePaths, createTar, listTar, extractTar,
    getArchiveFileSizeInBytes, unlinkFile;
  cbv zeta;
  repeat never_step.

Lemma FsCacheIndex_getCacheEntry_never p env keys paths c cross :
  (∀ dir, p (Readdir dir) = false) →
  (∀ msg e, p (ConsoleError msg e) = false) →
  never p (FsCacheIndex.getCacheEntry env keys paths c cross).
Proof.
  intros Hr Hc. induction keys as [|key keys IH]; [apply never_ret|].
  cbn [FsCacheIndex.getCacheEntry]. cbv zeta.
  apply never_bind.
  - apply never_try_catch.
    + unfold FsCacheIndex.probe, readdir.
      apply never_bind; [by apply never_call|].
      intros files. destruct (_ <? _)%nat; [|apply never_ret].
      apply never_bind; [apply never_lift|]. intros sortedKeys.
      apply never_ret.
    + intros e. apply never_bind; [by apply never_emit|].
      intros _. apply never_ret.
  - intros [entry|]; [apply never_ret|exact IH].
Qed.

Lemma FsCacheKeyed_getRestoreKey_never p env keys paths c cross :
  (∀ dir, p (Readdir dir) = false) →
  (∀ msg, p (ConsoleInfo msg) = false) →
  (∀ msg files, p (ConsoleInfoFiles msg files) = false) →
  never p (FsCacheKeyed.getRestoreKey env keys paths c cross).
Proof.
  intros Hr Hc Hf. induction keys as [|key keys IH]; [apply never_ret|].
  cbn [FsCacheKeyed.getRestoreKey]. cbv zeta.
  apply never_bind.
  - apply never_try_catch.
    + unfold FsCacheKeyed.probe, readdir.
      apply never_bind; [by apply never_call|].
      intros files. apply never_bind; [by apply never_emit|].
      intros _. destruct (_ <? _)%nat; [|apply never_ret].
      apply never_bind; [by apply never_emit|]. intros _. apply never_ret.
    + intros e. apply never_bind; [by apply never_emit|].
      intros _. apply never_ret.
  - intros [entry|]; [apply never_ret|exact IH].
Qed.

(** X3. [restoreCache] never creates a directory, packs an archive or
    removes a file: whatever the input and the state of the backend, its trace
    holds no [mkdir], [createTar] or [unlinkFile] call.  [saveCache] in turn
    never lists a directory and never unpacks an archive.  Both variants. *)
Theorem restore_and_save_keep_apart
    (env : Env) (paths : list string) (key : string)
    (restoreKeys : option (list string)) (cross : bool) :
  never modifies_backend
    (FsCacheIndex.restoreCache env paths key restoreKeys cross)
  ∧ never modifies_backend
      (FsCacheKeyed.restoreCache env paths key restoreKeys cross)
  ∧ never lists_or_unpacks (FsCacheIndex.saveCache env paths key cross)
  ∧ never lists_or_unpacks (FsCacheKeyed.saveCache env paths key cross).
Proof.
  split; [|split; [|split]].
  - unfold FsCacheIndex.restoreCache, FsCacheIndex.restoreBody.
    never_calls; by apply FsCacheIndex_getCacheEntry_never.
  - unfold FsCacheKeyed.restoreCache, FsCacheKeyed.restoreBody.
    never_calls; by apply FsCacheKeyed_getRestoreKey_never.
  - unfold FsCacheIndex.saveCache, FsCacheIndex.saveBody,
      FsCacheIndex.saveCatch.
    never_calls.
  - unfold FsCacheKeyed.saveCache, FsCacheKeyed.saveBody,
      FsCacheKeyed.saveCatch.
    never_calls.
Qed.

(** X4. Outside debug mode neither [restoreCache] nor [saveCache] ever lists
    the contents of an archive: [listTar] is called only when [core.isDebug()]
    holds. *)
Theorem listTar_only_in_debug
    (env : Env) (paths : list string) (key : string)
    (restoreKeys : option (list string)) (cross : bool) :
  isDebug env = false →
  never is_ListTar (FsCacheIndex.restoreCache env paths key restoreKeys cross)
  ∧ never is_ListTar
      (FsCacheKeyed.restoreCache env paths key restoreKeys cross)
  ∧ never is_ListTar (FsCacheIndex.saveCache env paths key cross)
  ∧ never is_ListTar (FsCacheKeyed.saveCache env paths key cross).
Proof.
  intros Hdebug. split; [|split; [|split]].
  - unfold FsCacheIndex.restoreCache, FsCacheIndex.restoreBody.
    rewrite Hdebug. never_calls; by apply FsCacheIndex_getCacheEntry_never.
  - unfold FsCacheKeyed.restoreCache, FsCacheKeyed.restoreBody.
    rewrite Hdebug. never_calls; by apply FsCacheKeyed_getRestoreKey_never.
  - unfold FsCacheIndex.saveCache, FsCacheIndex.saveBody,
      FsCacheIndex.saveCatch.
    rewrite Hdebug. never_calls.
  - unfold FsCacheKeyed.saveCache, FsCacheKeyed.saveBody,
      FsCacheKeyed.saveCatch.
    rewrite Hdebug. never_calls.
Qed.

Lemma listTar_only_in_debug_witness :
  never is_ListTar
    (FsCacheIndex.restoreCache one_archive_env ["target"] "k" None false)
  ∧ never is_ListTar (FsCacheKeyed.saveCache quiet_env ["target"] "k" false).
Proof.
  split.
  - apply (listTar_only_in_debug one_archive_env ["target"] "k" None false).
    reflexivity.
  - apply (listTar_only_in_debug quiet_env ["target"] "k" None false).
    reflexivity.
Defined.

(** ** A restore that finds an entry *)

Lemma consulted_never (t : list event) :
  Forall (λ ev, is_Readdir ev = false) t → consulted t = [].
Proof.
  induction 1 as [|ev t Hev _ IH]; [done|].
  destruct ev; simpl; done.
Qed.

Lemma consulted_bind {A B} (m : M A) (k : A → M B) :
  (∀ a, never is_Readdir (k a)) →
  consulted (trace (bind m k)) = consulted (trace m).
Proof.
  intros Hk. destruct m as [[a|e] t]; simpl; [|done].
  specialize (Hk a). destruct (k a) as [r t']. simpl.
  by rewrite consulted_app, (consulted_never t'), app_nil_r.
Qed.

Lemma consulted_try_catch {A} (m : M A) (h : thrown → M A) :
  (∀ e, never is_Readdir (h e)) →
  consulted (trace (try_catch m h)) = consulted (trace m).
Proof.
  intros Hh. destruct m as [[a|e] t]; simpl; [done|].
  specialize (Hh e). destruct (h e) as [r t']. simpl.
  by rewrite consulted_app, (consulted_never t'), app_nil_r.
Qed.

(** With valid input, the directories [restoreCache] lists are those its
    lookup lists. *)
Lemma FsCacheKeyed_restoreCache_consulted env paths primaryKey restoreKeys cross :
  let keys := primaryKey :: default [] restoreKeys in
  paths ≠ [] → (length keys ≤ 10)%nat → Forall key_ok keys →
  consulted (trace (FsCacheKeyed.restoreCache env paths primaryKey restoreKeys
                      cross))
  = consulted (trace (FsCacheKeyed.getRestoreKey env keys paths
                        (getCompressionMethod env) cross)).
Proof.
  intros keys Hp Hl Hk.
  rewrite FsCacheKeyed_restoreCache_valid by done. fold keys.
  rewrite !trace_bind_emit. cbn [consulted].
  rewrite consulted_try_catch by (intros e; never_calls).
  unfold FsCacheKeyed.restoreBody.
  apply consulted_bind. intros found. never_calls.
Qed.

Lemma FsCacheIndex_restoreCache_consulted env paths primaryKey restoreKeys cross :
  let keys := primaryKey :: default [] restoreKeys in
  paths ≠ [] → (length keys ≤ 10)%nat → Forall key_ok keys →
  consulted (trace (FsCacheIndex.restoreCache env paths primaryKey restoreKeys
                      cross))
  = consulted (trace (FsCacheIndex.getCacheEntry env keys paths
                        (getCompressionMethod env) cross)).
Proof.
  intros keys Hp Hl Hk.
  rewrite FsCacheIndex_restoreCache_valid by done. fold keys.
  rewrite !trace_bind_emit. cbn [consulted].
  rewrite consulted_try_catch by (intros e; never_calls).
  unfold FsCacheIndex.restoreBody.
  apply consulted_bind. intros found. never_calls.
Qed.

(** The body of [restoreCache] once the lookup has answered: it ends as the
    extraction ends. *)
Lemma FsCacheKeyed_restoreBody_found env keys paths c cross key size :
  outcome (FsCacheKeyed.getRestoreKey env keys paths c cross) = Ok (Some key) →
  let archivePath :=
    path_join env [FsCacheKeyed.restoreDirOf env paths c cross key;
                   getCacheFileName env c] in
  (isDebug env = true → listTar_result env archivePath c = Ok ()) →
  getArchiveFileSizeInBytes_result env archivePath = Ok size →
  outcome (FsCacheKeyed.restoreBody env keys paths c cross)
  = match extractTar_result env archivePath c with
    | Ok _ => Ok (Some key)
    | Throw e => Throw e
    end.
Proof.
  intros Hfound archivePath Hlist Hsize.
  unfold FsCacheKeyed.restoreBody.
  rewrite (outcome_bind_of_ok _ _ _ Hfound), outcome_bind_emit.
  cbv zeta. fold (FsCacheKeyed.restoreDirOf env paths c cross key).
  fold archivePath. rewrite outcome_bind_emit.
  unfold listTar, getArchiveFileSizeInBytes, extractTar, call.
  rewrite Hsize.
  destruct (isDebug env); [rewrite Hlist by done|];
    by destruct (extractTar_result env archivePath c).
Qed.

Lemma FsCacheIndex_restoreBody_found env keys paths c cross entry size :
  outcome (FsCacheIndex.getCacheEntry env keys paths c cross)
  = Ok (Some entry) →
  let archivePath := join "/" [archiveLocation entry; cacheKey entry] in
  (isDebug env = true → listTar_result env archivePath c = Ok ()) →
  getArchiveFileSizeInBytes_result env archivePath = Ok size →
  outcome (FsCacheIndex.restoreBody env keys paths c cross)
  = match extractTar_result env archivePath c with
    | Ok _ => Ok (Some (cacheKey entry))
    | Throw e => Throw e
    end.
Proof.
  intros Hfound archivePath Hlist Hsize.
  unfold FsCacheIndex.restoreBody.
  rewrite (outcome_bind_of_ok _ _ _ Hfound).
  cbv zeta. fold archivePath. rewrite outcome_bind_emit.
  unfold listTar, getArchiveFileSizeInBytes, extractTar, call.
  rewrite Hsize.
  destruct (isDebug env); [rewrite Hlist by done|];
    by destruct (extractTar_result env archivePath c).
Qed.

Lemma outcome_try_catch_of_ok {A} (m : M A) (h : thrown → M A) a :
  outcome m = Ok a → outcome (try_catch m h) = Ok a.
Proof. destruct m as [r t]. simpl. by intros ->. Qed.

(** The handler of [restoreCache] on an error of another name. *)
Lemma restore_handler_soft {A} (m : M (option A)) e :
  outcome m = Throw e → name_is e ValidationError_name = false →
  outcome
    (try_catch m
       (λ error,
          if name_is error ValidationError_name then throw error
          else
            emit (Warning ("Failed to restore: " +:+ errMessage error)) ;;;
            ret None))
  = Ok None
  ∧ Warning ("Failed to restore: " +:+ errMessage e)
    ∈ trace
        (try_catch m
           (λ error,
              if name_is error ValidationError_name then throw error
              else
                emit (Warning ("Failed to restore: " +:+ errMessage error)) ;;;
                ret None)).
Proof.
  intros H Hname. split.
  - by rewrite (outcome_try_catch_of_throw _ _ _ H), Hname.
  - rewrite (trace_try_catch_of_throw _ _ _ H), Hname.
    apply elem_of_app. right. by left.
Qed.

(** X5. A restore that finds an entry and unpacks it.  Input valid, the keys
    before [key] yielding nothing, the directory of [key] listing a child
    (and, for [src/fsCache/index.ts], the sort of that listing coming
    through: a single child, or [statSync] succeeding on every child), the
    archive readable and [extractTar] succeeding: the second variant returns
    [key]; [src/fsCache/index.ts] unpacks the child its lookup chose and
    returns that child's name.  In both, the only directories listed are
    those of the keys up to [key]. *)
Theorem restoreCache_hit
    (env : Env) (paths : list string) (primaryKey : string)
    (restoreKeys : option (list string)) (cross : bool)
    (pre : list string) (key : string) (post files : list string) (size : Z) :
  let keys := primaryKey :: default [] restoreKeys in
  let c := getCompressionMethod env in
  paths ≠ [] → (length keys ≤ 10)%nat → Forall key_ok keys →
  keys = pre ++ key :: post →
  ((∀ k, k ∈ pre →
      listing_yields env (FsCacheKeyed.restoreDirOf env paths c cross k) = false) →
   listing_yields env (FsCacheKeyed.restoreDirOf env paths c cross key) = true →
   let archivePath :=
     path_join env [FsCacheKeyed.restoreDirOf env paths c cross key;
                    getCacheFileName env c] in
   archive_readable env archivePath c size →
   extractTar_result env archivePath c = Ok () →
   outcome (FsCacheKeyed.restoreCache env paths primaryKey restoreKeys cross)
   = Ok (Some key)
   ∧ consulted (trace (FsCacheKeyed.restoreCache env paths primaryKey
                         restoreKeys cross))
     = FsCacheKeyed.restoreDirOf env paths c cross <$> (pre ++ [key]))
  ∧ ((∀ k, k ∈ pre →
      entry_yields env (FsCacheIndex.restoreDirOf env paths c cross k) = false) →
     let dir := FsCacheIndex.restoreDirOf env paths c cross key in
     readdir_result env dir = Ok files → files ≠ [] →
     sortable env dir files = true →
     let archivePath := join "/" [dir; chosen_child env dir files] in
     archive_readable env archivePath c size →
     extractTar_result env archivePath c = Ok () →
     outcome (FsCacheIndex.restoreCache env paths primaryKey restoreKeys cross)
     = Ok (Some (chosen_child env dir files))
     ∧ chosen_child env dir files ∈ files
     ∧ consulted (trace (FsCacheIndex.restoreCache env paths primaryKey
                           restoreKeys cross))
       = FsCacheIndex.restoreDirOf env paths c cross <$> (pre ++ [key])).
Proof.
  intros keys c Hp Hl Hk Hkeys. split.
  - intros Hpre Hkey archivePath [Hlist Hsize] Hextract.
    destruct (FsCacheKeyed_getRestoreKey_first_match env paths c cross
                pre key post Hpre Hkey) as [Hfound Hdirs].
    rewrite <- Hkeys in Hfound, Hdirs.
    split.
    + rewrite FsCacheKeyed_restoreCache_valid by done. fold keys.
      rewrite !outcome_bind_emit.
      pose proof (FsCacheKeyed_restoreBody_found env keys paths c cross key
                    size Hfound Hlist Hsize) as Hbody.
      fold archivePath in Hbody. rewrite Hextract in Hbody.
      by rewrite (outcome_try_catch_of_ok _ _ _ Hbody).
    + by rewrite FsCacheKeyed_restoreCache_consulted.
  - intros Hpre dir Hfiles Hne Hs archivePath [Hlist Hsize] Hextract.
    pose proof (FsCacheIndex_getCacheEntry_first_match_entry env paths c cross
                  pre key post files Hpre Hfiles Hne Hs) as Hfound.
    cbv zeta in Hfound. fold dir in Hfound.
    rewrite <- Hkeys in Hfound.
    destruct (FsCacheIndex_getCacheEntry_first_match env paths c cross
                pre key post Hpre) as [_ Hdirs].
    { by apply (entry_yields_intro _ _ files). }
    rewrite <- Hkeys in Hdirs.
    split; [|split].
    + rewrite FsCacheIndex_restoreCache_valid by done. fold keys.
      rewrite !outcome_bind_emit.
      pose proof (FsCacheIndex_restoreBody_found env keys paths c cross _
                    size Hfound Hlist Hsize) as Hbody.
      cbn [cacheKey archiveLocation] in Hbody. fold archivePath in Hbody.
      rewrite Hextract in Hbody.
      by rewrite (outcome_try_catch_of_ok _ _ _ Hbody).
    + unfold chosen_child.
      destruct (Array_sort_head (mtimeOrder env dir) files Hne)
        as (child & -> & Hin). done.
    + by rewrite FsCacheIndex_restoreCache_consulted.
Qed.

Lemma restoreCache_hit_witness :
  outcome (FsCacheKeyed.restoreCache one_archive_env ["target"] "k0"
             (Some ["k"; "k2"]) false) = Ok (Some "k")
  ∧ outcome (FsCacheIndex.restoreCache old_new_env ["target"] "k0"
               (Some ["k"; "k2"]) false) = Ok (Some "old").
Proof.
  assert (∀ s, s ∈ ["k0"; "k"; "k2"] → key_ok s) as Hok.
  { intros s Hs. split; [|].
    - repeat (apply elem_of_cons in Hs as [->|Hs]; [simpl; lia|]).
      by apply elem_of_nil in Hs.
    - repeat (apply elem_of_cons in Hs as [->|Hs]; [reflexivity|]).
      by apply elem_of_nil in Hs. }
  apply Forall_forall in Hok.
  split.
  - destruct (restoreCache_hit one_archive_env ["target"] "k0"
                (Some ["k"; "k2"]) false ["k0"] "k" ["k2"] [] 3145728)
      as [Hkeyed _]; [done|simpl; lia|exact Hok|reflexivity|].
    apply Hkeyed.
    + intros k Hk. apply list_elem_of_singleton in Hk. subst k.
      vm_compute. reflexivity.
    + vm_compute. reflexivity.
    + split; [intros Hd; discriminate Hd|reflexivity].
    + reflexivity.
  - destruct (restoreCache_hit old_new_env ["target"] "k0"
                (Some ["k"; "k2"]) false ["k0"] "k" ["k2"] ["old"; "new"]
                3145728)
      as [_ Hindex]; [done|simpl; lia|exact Hok|reflexivity|].
    destruct Hindex as (Hout & _ & _).
    + intros k Hk. apply list_elem_of_singleton in Hk. subst k.
      vm_compute. reflexivity.
    + vm_compute. reflexivity.
    + done.
    + vm_compute. reflexivity.
    + split; [intros Hd; discriminate Hd|reflexivity].
    + reflexivity.
    + rewrite Hout. vm_compute. reflexivity.
Defined.

(** X6. A match that cannot be unpacked ends the restore.  Input valid, the
    keys before [key] yielding nothing, the directory of [key] listing a child
    (and, for [src/fsCache/index.ts], the sort of that listing coming
    through: a single child, or [statSync] succeeding on every child), the
    archive readable, and [extractTar] throwing an error [e] that is not named
    ["ValidationError"]: [restoreCache] returns [undefined], reports
    ["Failed to restore: "] with the message of [e] as a warning, and has
    listed no directory after that of [key], so no lower-priority key is
    tried.  Both variants. *)
Theorem restoreCache_unpack_failure_is_final
    (env : Env) (paths : list string) (primaryKey : string)
    (restoreKeys : option (list string)) (cross : bool)
    (pre : list string) (key : string) (post files : list string) (size : Z)
    (e : thrown) :
  let keys := primaryKey :: default [] restoreKeys in
  let c := getCompressionMethod env in
  paths ≠ [] → (length keys ≤ 10)%nat → Forall key_ok keys →
  keys = pre ++ key :: post →
  name_is e ValidationError_name = false →
  ((∀ k, k ∈ pre →
      listing_yields env (FsCacheKeyed.restoreDirOf env paths c cross k) = false) →
   listing_yields env (FsCacheKeyed.restoreDirOf env paths c cross key) = true →
   let archivePath :=
     path_join env [FsCacheKeyed.restoreDirOf env paths c cross key;
                    getCacheFileName env c] in
   archive_readable env archivePath c size →
   extractTar_result env archivePath c = Throw e →
   outcome (FsCacheKeyed.restoreCache env paths primaryKey restoreKeys cross)
   = Ok None
   ∧ Warning ("Failed to restore: " +:+ errMessage e)
     ∈ trace (FsCacheKeyed.restoreCache env paths primaryKey restoreKeys cross)
   ∧ consulted (trace (FsCacheKeyed.restoreCache env paths primaryKey
                         restoreKeys cross))
     = FsCacheKeyed.restoreDirOf env paths c cross <$> (pre ++ [key]))
  ∧ ((∀ k, k ∈ pre →
      entry_yields env (FsCacheIndex.restoreDirOf env paths c cross k) = false) →
     let dir := FsCacheIndex.restoreDirOf env paths c cross key in
     readdir_result env dir = Ok files → files ≠ [] →
     sortable env dir files = true →
     let archivePath := join "/" [dir; chosen_child env dir files] in
     archive_readable env archivePath c size →
     extractTar_result env archivePath c = Throw e →
     outcome (FsCacheIndex.restoreCache env paths primaryKey restoreKeys cross)
     = Ok None
     ∧ Warning ("Failed to restore: " +:+ errMessage e)
       ∈ trace (FsCacheIndex.restoreCache env paths primaryKey restoreKeys cross)
     ∧ consulted (trace (FsCacheIndex.restoreCache env paths primaryKey
                           restoreKeys cross))
       = FsCacheIndex.restoreDirOf env paths c cross <$> (pre ++ [key])).
Proof.
  intros keys c Hp Hl Hk Hkeys Hname. split.
  - intros Hpre Hkey archivePath [Hlist Hsize] Hextract.
    destruct (FsCacheKeyed_getRestoreKey_first_match env paths c cross
                pre key post Hpre Hkey) as [Hfound Hdirs].
    rewrite <- Hkeys in Hfound, Hdirs.
    pose proof (FsCacheKeyed_restoreBody_found env keys paths c cross key
                  size Hfound Hlist Hsize) as Hbody.
    fold archivePath in Hbody. rewrite Hextract in Hbody.
    destruct (restore_handler_soft _ e Hbody Hname) as [Hout Hwarn].
    split; [|split].
    + rewrite FsCacheKeyed_restoreCache_valid by done. fold keys.
      by rewrite !outcome_bind_emit.
    + rewrite FsCacheKeyed_restoreCache_valid by done. fold keys.
      rewrite !trace_bind_emit. by do 2 right.
    + by rewrite FsCacheKeyed_restoreCache_consulted.
  - intros Hpre dir Hfiles Hne Hs archivePath [Hlist Hsize] Hextract.
    pose proof (FsCacheIndex_getCacheEntry_first_match_entry env paths c cross
                  pre key post files Hpre Hfiles Hne Hs) as Hfound.
    cbv zeta in Hfound. fold dir in Hfound.
    rewrite <- Hkeys in Hfound.
    destruct (FsCacheIndex_getCacheEntry_first_match env paths c cross
                pre key post Hpre) as [_ Hdirs].
    { by apply (entry_yields_intro _ _ files). }
    rewrite <- Hkeys in Hdirs.
    pose proof (FsCacheIndex_restoreBody_found env keys paths c cross _
                  size Hfound Hlist Hsize) as Hbody.
    cbn [cacheKey archiveLocation] in Hbody. fold archivePath in Hbody.
    rewrite Hextract in Hbody.
    destruct (restore_handler_soft _ e Hbody Hname) as [Hout Hwarn].
    split; [|split].
    + rewrite FsCacheIndex_restoreCache_valid by done. fold keys.
      by rewrite !outcome_bind_emit.
    + rewrite FsCacheIndex_restoreCache_valid by done. fold keys.
      rewrite !trace_bind_emit. by do 2 right.
    + by rewrite FsCacheIndex_restoreCache_consulted.
Qed.

Lemma restoreCache_unpack_failure_is_final_witness :
  outcome (FsCacheKeyed.restoreCache
             (corrupt_archive_env (Error "tar: unexpected end of file"))
             ["target"] "k" (Some ["k2"]) false) = Ok None
  ∧ consulted (trace (FsCacheKeyed.restoreCache
                        (corrupt_archive_env (Error "tar: unexpected end of file"))
                        ["target"] "k" (Some ["k2"]) false))
    = ["/runner/rust_cache/cache/acme/app/target|zstd|1.0/k"]
  ∧ outcome (FsCacheIndex.restoreCache
               (corrupt_archive_env (Error "tar: unexpected end of file"))
               ["target"] "k" (Some ["k2"]) false) = Ok None.
Proof.
  destruct (restoreCache_unpack_failure_is_final
              (corrupt_archive_env (Error "tar: unexpected end of file"))
              ["target"] "k" (Some ["k2"]) false [] "k" ["k2"] ["cache.tzst"]
              3145728 (Error "tar: unexpected end of file"))
    as [Hkeyed Hindex]; [done|simpl; lia| |reflexivity|reflexivity|].
  { repeat (constructor; [by split; [simpl; lia|]|]). constructor. }
  destruct Hkeyed as (Hout & _ & Hdirs).
  - intros k Hk. by apply elem_of_nil in Hk.
  - vm_compute. reflexivity.
  - split; [intros Hd; discriminate Hd|reflexivity].
  - reflexivity.
  - destruct Hindex as (Hout' & _ & _).
    + intros k Hk. by apply elem_of_nil in Hk.
    + vm_compute. reflexivity.
    + done.
    + reflexivity.
    + split; [intros Hd; discriminate Hd|reflexivity].
    + reflexivity.
    + split; [exact Hout|]. split; [|exact Hout'].
      rewrite Hdirs. vm_compute. reflexivity.
Defined.

(** ** The outcome of [saveCache], case by case *)

Lemma outcome_bind_call {A B} ev (r : result A) (k : A → M B) :
  outcome (bind (call ev r) k)
  = match r with Ok a => outcome (k a) | Throw e => Throw e end.
Proof. destruct r as [a|e]; simpl; [|done]. by destruct (k a). Qed.

Lemma outcome_bind_checkKey {B} key (k : unit → M B) :
  outcome (bind (checkKey key) k)
  = match outcome (checkKey key) with
    | Ok _ => outcome (k ())
    | Throw e => Throw e
    end.
Proof.
  destruct (key_ok_dec key) as [Hok|Hno].
  - by rewrite checkKey_ok, bind_ret_l.
  - by destruct (checkKey_not_ok key Hno) as [m ->].
Qed.

Lemma FsCacheIndex_saveCache_outcome env paths key cross :
  let c := getCompressionMethod env in
  let archiveFolder :=
    path_join env [FsCacheIndex.cacheDir env; getPrefix env paths c cross; key] in
  let archivePath := path_join env [archiveFolder; getCacheFileName env c] in
  outcome (FsCacheIndex.saveCache env paths key cross)
  = match outcome (checkPaths paths), outcome (checkKey key) with
    | Throw e, _ => Throw e
    | Ok _, Throw e => Throw e
    | Ok _, Ok _ =>
        match resolvePaths_result env paths with
        | Throw e => Throw e
        | Ok [] => Throw (Error no_paths_message)
        | Ok cachePaths =>
            match mkdir_result env (FsCacheIndex.cacheDir env) with
            | Throw e => Throw e
            | Ok _ =>
                outcome
                  (try_catch
                     (FsCacheIndex.saveBody env archiveFolder archivePath
                        cachePaths c)
                     (FsCacheIndex.saveCatch (-1)))
            end
        end
    end.
Proof.
  intros c archiveFolder archivePath. unfold FsCacheIndex.saveCache.
  destruct paths as [|p paths]; [done|].
  rewrite checkPaths_cons, bind_ret_l, outcome_bind_checkKey.
  cbn [checkPaths length Nat.eqb ret outcome fst].
  destruct (outcome (checkKey key)) as [[]|e]; [|done].
  unfold resolvePaths. rewrite outcome_bind_call.
  destruct (resolvePaths_result env (p :: paths)) as [cachePaths|e]; [|done].
  rewrite !outcome_bind_emit.
  destruct cachePaths as [|q cachePaths]; [done|].
  cbn [length Nat.eqb]. rewrite bind_ret_l. cbv zeta.
  unfold mkdir. rewrite outcome_bind_call.
  destruct (mkdir_result env (FsCacheIndex.cacheDir env)) as [[]|e]; [|done].
  rewrite !outcome_bind_emit.
  destruct (cleanup_returns (unlinkFile env archivePath)
              (λ error, "Failed to delete archive: " +:+ errToString error))
    as [u Hclean].
  by rewrite (outcome_try_finally _ _ _ Hclean).
Qed.

Lemma FsCacheKeyed_saveCache_outcome env paths key cross :
  let c := getCompressionMethod env in
  let archiveFolder :=
    path_join env [FsCacheKeyed.cacheDir env; getPrefix env paths c cross; key] in
  let archivePath := path_join env [archiveFolder; getCacheFileName env c] in
  outcome (FsCacheKeyed.saveCache env paths key cross)
  = match outcome (checkPaths paths), outcome (checkKey key) with
    | Throw e, _ => Throw e
    | Ok _, Throw e => Throw e
    | Ok _, Ok _ =>
        match resolvePaths_result env paths with
        | Throw e => Throw e
        | Ok [] => Throw (Error no_paths_message)
        | Ok cachePaths =>
            match mkdir_result env archiveFolder with
            | Throw e => Throw e
            | Ok _ =>
                outcome
                  (try_catch
                     (FsCacheKeyed.saveBody env archiveFolder archivePath
                        cachePaths c)
                     (FsCacheKeyed.saveCatch (-1)))
            end
        end
    end.
Proof.
  intros c archiveFolder archivePath. unfold FsCacheKeyed.saveCache.
  destruct paths as [|p paths]; [done|].
  rewrite checkPaths_cons, bind_ret_l, outcome_bind_checkKey.
  cbn [checkPaths length Nat.eqb ret outcome fst].
  destruct (outcome (checkKey key)) as [[]|e]; [|done].
  unfold resolvePaths. rewrite outcome_bind_call.
  destruct (resolvePaths_result env (p :: paths)) as [cachePaths|e]; [|done].
  rewrite !outcome_bind_emit.
  destruct cachePaths as [|q cachePaths]; [done|].
  cbn [length Nat.eqb]. rewrite bind_ret_l. cbv zeta.
  fold c. fold archiveFolder. fold archivePath.
  unfold mkdir. rewrite outcome_bind_call.
  destruct (mkdir_result env archiveFolder) as [[]|e]; [|done].
  rewrite !outcome_bind_emit.
  rewrite (outcome_bind_of_ok _ _ _
             (swallow_returns (unlinkFile env archivePath ;;;
                               emit (Debug "Deleted existing tar")))).
  destruct (cleanup_returns
              (unlinkFile env (path_join env [archiveFolder; "manifest.txt"]))
              (λ error, "Failed to delete manifest: " +:+ errToString error))
    as [u Hclean].
  by rewrite (outcome_try_finally _ _ _ Hclean).
Qed.

(** X7. Clean-up is never fatal.  Whether [unlinkFile] succeeds or throws,
    for the stale archive removed before packing (second variant) or for the
    archive or manifest removed afterwards, makes no difference to what
    [saveCache] returns or raises: replacing the behaviour of [unlinkFile] in
    the surroundings by any other leaves the outcome the same. *)
Theorem saveCache_cleanup_is_soft
    (env : Env) (unlink : string → result unit)
    (paths : list string) (key : string) (cross : bool) :
  outcome (FsCacheIndex.saveCache (with_unlinkFile env unlink) paths key cross)
  = outcome (FsCacheIndex.saveCache env paths key cross)
  ∧ outcome (FsCacheKeyed.saveCache (with_unlinkFile env unlink) paths key cross)
    = outcome (FsCacheKeyed.saveCache env paths key cross).
Proof.
  split.
  - rewrite !FsCacheIndex_saveCache_outcome. reflexivity.
  - rewrite !FsCacheKeyed_saveCache_outcome. reflexivity.
Qed.

Lemma FsCacheIndex_saveBody_ok env folder archive cachePaths c v :
  outcome (FsCacheIndex.saveBody env folder archive cachePaths c) = Ok v →
  v = 1 ∧ createTar_result env folder cachePaths c = Ok ().
Proof.
  unfold FsCacheIndex.saveBody, createTar. rewrite outcome_bind_call.
  destruct (createTar_result env folder cachePaths c) as [[]|e]; [|done].
  intros H. split; [|done].
  repeat (apply outcome_bind_ok in H as (? & _ & H)). by injection H.
Qed.

Lemma FsCacheKeyed_saveBody_ok env folder archive cachePaths c v :
  outcome (FsCacheKeyed.saveBody env folder archive cachePaths c) = Ok v →
  v = 1 ∧ createTar_result env folder cachePaths c = Ok ().
Proof.
  unfold FsCacheKeyed.saveBody, createTar. rewrite outcome_bind_call.
  destruct (createTar_result env folder cachePaths c) as [[]|e]; [|done].
  intros H. split; [|done].
  repeat (apply outcome_bind_ok in H as (? & _ & H)). by injection H.
Qed.

(** The guarded region of [saveCache] ends in one of three ways. *)
Lemma save_region_cases (body : M Z) (catch : thrown → M Z) :
  (∀ e,
     (name_is e ValidationError_name = true → catch e = throw e)
     ∧ (name_is e ValidationError_name = false →
        name_is e ReserveCacheError_name = true →
        catch e = (Ok (-1), [Info ("Failed to save: " +:+ errMessage e)]))
     ∧ (name_is e ValidationError_name = false →
        name_is e ReserveCacheError_name = false →
        catch e = (Ok (-1), [Warning ("Failed to save: " +:+ errMessage e)]))) →
  (∃ v, outcome body = Ok v ∧ outcome (try_catch body catch) = Ok v)
  ∨ (∃ e, outcome body = Throw e ∧ name_is e ValidationError_name = true
          ∧ outcome (try_catch body catch) = Throw e)
  ∨ (∃ e, outcome body = Throw e ∧ name_is e ValidationError_name = false
          ∧ outcome (try_catch body catch) = Ok (-1)).
Proof.
  intros Hcatch. destruct (outcome body) as [v|e] eqn:Hbody.
  - left. exists v. split; [done|]. by apply outcome_try_catch_of_ok.
  - right. rewrite (outcome_try_catch_of_throw _ _ _ Hbody).
    destruct (Hcatch e) as (Hv & Hr & Hw).
    destruct (name_is e ValidationError_name) eqn:Hname.
    + left. exists e. by rewrite Hv.
    + right. exists e. split; [done|]. split; [done|].
      destruct (name_is e ReserveCacheError_name) eqn:Hres.
      * by rewrite Hr.
      * by rewrite Hw.
Qed.

(** X8. What [saveCache] can answer.  It returns [1] or [-1] and nothing
    else, and [1] only when [createTar] has succeeded on the resolved paths.
    An error it raises is either named ["ValidationError"], or the error for
    patterns that resolve to nothing, or the error thrown by [resolvePaths],
    or the error thrown by [mkdir]; no other failure reaches the caller. *)
Theorem saveCache_answers
    (env : Env) (paths : list string) (key : string) (cross : bool) :
  let c := getCompressionMethod env in
  let folderIndex :=
    path_join env [FsCacheIndex.cacheDir env; getPrefix env paths c cross; key] in
  let folderKeyed :=
    path_join env [FsCacheKeyed.cacheDir env; getPrefix env paths c cross; key] in
  (∀ v, outcome (FsCacheIndex.saveCache env paths key cross) = Ok v →
        (v = 1 ∨ v = -1)
        ∧ (v = 1 → ∃ cachePaths,
             resolvePaths_result env paths = Ok cachePaths
             ∧ createTar_result env folderIndex cachePaths c = Ok ()))
  ∧ (∀ e, outcome (FsCacheIndex.saveCache env paths key cross) = Throw e →
          name_is e ValidationError_name = true
          ∨ e = Error no_paths_message
          ∨ resolvePaths_result env paths = Throw e
          ∨ mkdir_result env (FsCacheIndex.cacheDir env) = Throw e)
  ∧ (∀ v, outcome (FsCacheKeyed.saveCache env paths key cross) = Ok v →
          (v = 1 ∨ v = -1)
          ∧ (v = 1 → ∃ cachePaths,
               resolvePaths_result env paths = Ok cachePaths
               ∧ createTar_result env folderKeyed cachePaths c = Ok ()))
  ∧ (∀ e, outcome (FsCacheKeyed.saveCache env paths key cross) = Throw e →
          name_is e ValidationError_name = true
          ∨ e = Error no_paths_message
          ∨ resolvePaths_result env paths = Throw e
          ∨ mkdir_result env folderKeyed = Throw e).
Proof.
  intros c folderIndex folderKeyed.
  pose proof (FsCacheIndex_saveCache_outcome env paths key cross) as Hi.
  pose proof (FsCacheKeyed_saveCache_outcome env paths key cross) as Hk.
  cbv zeta in Hi, Hk. fold c in Hi, Hk.
  fold folderIndex in Hi. fold folderKeyed in Hk.
  rewrite Hi, Hk. clear Hi Hk.
  destruct (outcome (checkPaths paths)) as [[]|e1] eqn:Hpaths.
  2:{ apply checkPaths_throw in Hpaths.
      repeat split; try done; intros e [= <-]; by left. }
  destruct (outcome (checkKey key)) as [[]|e2] eqn:Hkey.
  2:{ apply checkKey_throw in Hkey.
      repeat split; try done; intros e [= <-]; by left. }
  destruct (resolvePaths_result env paths) as [[|q cachePaths]|e3].
  { repeat split; try done; intros e [= <-]; right; by left. }
  2:{ repeat split; try done; intros e [= <-]; right; right; by left. }
  split; [|split; [|split]].
  - destruct (mkdir_result env (FsCacheIndex.cacheDir env)) as [[]|e4];
      [|done].
    intros v Hv.
    lazymatch type of Hv with
    | outcome (try_catch ?b _) = _ => set (body := b) in *
    end.
    destruct (save_region_cases body _ FsCacheIndex_saveCatch_cases)
      as [(v' & Hb & Ho)|[(e & Hb & Hn & Ho)|(e & Hb & Hn & Ho)]];
      rewrite Ho in Hv; [|done|].
    + injection Hv as ->.
      apply FsCacheIndex_saveBody_ok in Hb as [-> Htar].
      split; [by left|]. intros _. by exists (q :: cachePaths).
    + injection Hv as <-. split; [by right|done].
  - destruct (mkdir_result env (FsCacheIndex.cacheDir env)) as [[]|e4].
    2:{ intros e [= <-]. by repeat right. }
    intros e' He'.
    lazymatch type of He' with
    | outcome (try_catch ?b _) = _ => set (body := b) in *
    end.
    destruct (save_region_cases body _ FsCacheIndex_saveCatch_cases)
      as [(v' & Hb & Ho)|[(e & Hb & Hn & Ho)|(e & Hb & Hn & Ho)]];
      rewrite Ho in He'; [done| |done].
    injection He' as <-. by left.
  - destruct (mkdir_result env folderKeyed) as [[]|e4]; [|done].
    intros v Hv.
    lazymatch type of Hv with
    | outcome (try_catch ?b _) = _ => set (body := b) in *
    end.
    destruct (save_region_cases body _ FsCacheKeyed_saveCatch_cases)
      as [(v' & Hb & Ho)|[(e & Hb & Hn & Ho)|(e & Hb & Hn & Ho)]];
      rewrite Ho in Hv; [|done|].
    + injection Hv as ->.
      apply FsCacheKeyed_saveBody_ok in Hb as [-> Htar].
      split; [by left|]. intros _. by exists (q :: cachePaths).
    + injection Hv as <-. split; [by right|done].
  - destruct (mkdir_result env folderKeyed) as [[]|e4].
    2:{ intros e [= <-]. by repeat right. }
    intros e' He'.
    lazymatch type of He' with
    | outcome (try_catch ?b _) = _ => set (body := b) in *
    end.
    destruct (save_region_cases body _ FsCacheKeyed_saveCatch_cases)
      as [(v' & Hb & Ho)|[(e & Hb & Hn & Ho)|(e & Hb & Hn & Ho)]];
      rewrite Ho in He'; [done| |done].
    injection He' as <-. by left.
Qed.

Lemma saveCache_answers_witness :
  (∃ cachePaths,
     resolvePaths_result quiet_env ["target"] = Ok cachePaths
     ∧ createTar_result quiet_env
         "/var/local/inf_runner_cache/cache/acme/app/target|zstd|1.0/k"
         cachePaths Zstd = Ok ())
  ∧ (name_is EACCES ValidationError_name = true
     ∨ EACCES = Error no_paths_message
     ∨ resolvePaths_result read_only_env ["target"] = Throw EACCES
     ∨ mkdir_result read_only_env
         "/runner/rust_cache/cache/acme/app/target|zstd|1.0/k" = Throw EACCES).
Proof.
  split.
  - destruct (saveCache_answers quiet_env ["target"] "k" false)
      as (Hok & _ & _ & _).
    destruct (Hok 1) as [_ Hpacked]; [vm_compute; reflexivity|].
    apply Hpacked. reflexivity.
  - destruct (saveCache_answers read_only_env ["target"] "k" false)
      as (_ & _ & _ & Hthrow).
    apply (Hthrow EACCES). vm_compute. reflexivity.
Defined.

(** ** A save that succeeds *)

Lemma calls_app t1 t2 : calls (t1 ++ t2) = calls t1 ++ calls t2.
Proof. unfold calls. apply List.filter_app. Qed.

Lemma calls_cons ev t :
  calls (ev :: t) = if is_report ev then calls t else ev :: calls t.
Proof. unfold calls. simpl. by destruct (is_report ev). Qed.

Ltac calls_norm :=
  repeat first
    [ rewrite calls_app
    | rewrite calls_cons; cbn [is_report] ].

Lemma calls_cleanup env file (msg : thrown → string) :
  calls (trace (try_catch (unlinkFile env file)
                  (λ error, emit (Debug (msg error)))))
  = [Unlink file].
Proof.
  unfold unlinkFile, call. by destruct (unlinkFile_result env file) as [[]|e].
Qed.

Lemma calls_delete_existing env file :
  calls (trace (try_catch
                  (unlinkFile env file ;;; emit (Debug "Deleted existing tar"))
                  (λ _, ret ())))
  = [Unlink file].
Proof.
  unfold unlinkFile, call. by destruct (unlinkFile_result env file) as [[]|e].
Qed.

Lemma FsCacheIndex_saveBody_success env folder archive cachePaths c size :
  createTar_result env folder cachePaths c = Ok () →
  archive_readable env archive c size →
  FsCacheIndex.saveBody env folder archive cachePaths c
  = (Ok 1,
     CreateTar folder cachePaths
     :: (if isDebug env then [ListTar archive] else [])
     ++ [FileSize archive; Debug ("File Size: " +:+ pretty size)]).
Proof.
  intros Htar [Hlist Hsize].
  unfold FsCacheIndex.saveBody, createTar, listTar,
    getArchiveFileSizeInBytes, call.
  rewrite Htar, Hsize. destruct (isDebug env); [rewrite Hlist by done|]; done.
Qed.

Lemma FsCacheKeyed_saveBody_success env folder archive cachePaths c size :
  createTar_result env folder cachePaths c = Ok () →
  archive_readable env archive c size →
  FsCacheKeyed.saveBody env folder archive cachePaths c
  = (Ok 1,
     CreateTar folder cachePaths
     :: (if isDebug env then [ListTar archive] else [])
     ++ [FileSize archive; Debug ("File Size: " +:+ pretty size)]).
Proof.
  intros Htar [Hlist Hsize].
  unfold FsCacheKeyed.saveBody, createTar, listTar,
    getArchiveFileSizeInBytes, call.
  rewrite Htar, Hsize. destruct (isDebug env); [rewrite Hlist by done|]; done.
Qed.

(** X9. A save that succeeds, and what it leaves behind.  Input valid, the
    patterns resolving to at least one path, the directory created,
    [createTar] succeeding and the archive readable: [saveCache] returns [1].
    The calls it makes are, in order: for [src/fsCache/index.ts], resolve the
    paths, create the cache root (not the folder of the key), pack into the
    folder of the key, read the size, and remove the archive just packed; for
    the second variant, resolve the paths, create the folder of the key,
    remove an archive already there, pack, read the size, and remove the
    manifest, leaving the archive.  In debug mode [listTar] comes after the
    packing. *)
Theorem saveCache_success
    (env : Env) (paths : list string) (key : string) (cross : bool)
    (cachePaths : list string) (size : Z) :
  let c := getCompressionMethod env in
  let debug archive := if isDebug env then [ListTar archive] else [] in
  paths ≠ [] → key_ok key →
  resolvePaths_result env paths = Ok cachePaths → cachePaths ≠ [] →
  (let folder :=
     path_join env [FsCacheIndex.cacheDir env; getPrefix env paths c cross; key] in
   let archive := path_join env [folder; getCacheFileName env c] in
   mkdir_result env (FsCacheIndex.cacheDir env) = Ok () →
   createTar_result env folder cachePaths c = Ok () →
   archive_readable env archive c size →
   outcome (FsCacheIndex.saveCache env paths key cross) = Ok 1
   ∧ calls (trace (FsCacheIndex.saveCache env paths key cross))
     = [ResolvePaths paths; Mkdir (FsCacheIndex.cacheDir env);
        CreateTar folder cachePaths]
       ++ debug archive ++ [FileSize archive; Unlink archive])
  ∧ (let folder :=
       path_join env [FsCacheKeyed.cacheDir env; getPrefix env paths c cross; key] in
     let archive := path_join env [folder; getCacheFileName env c] in
     mkdir_result env folder = Ok () →
     createTar_result env folder cachePaths c = Ok () →
     archive_readable env archive c size →
     outcome (FsCacheKeyed.saveCache env paths key cross) = Ok 1
     ∧ calls (trace (FsCacheKeyed.saveCache env paths key cross))
       = [ResolvePaths paths; Mkdir folder; Unlink archive;
          CreateTar folder cachePaths]
         ++ debug archive
         ++ [FileSize archive; Unlink (path_join env [folder; "manifest.txt"])]).
Proof.
  intros c debug Hp Hk Hres Hne.
  destruct paths as [|p paths]; [done|].
  destruct cachePaths as [|q cachePaths]; [done|].
  assert (outcome (resolvePaths env (p :: paths)) = Ok (q :: cachePaths))
    as Hres' by exact Hres.
  split.
  - intros folder archive Hmk Htar Hread.
    assert (outcome (mkdir env (FsCacheIndex.cacheDir env)) = Ok ()) as Hmk'
      by exact Hmk.
    pose proof (FsCacheIndex_saveBody_success env folder archive
                  (q :: cachePaths) c size Htar Hread) as Hbody.
    split.
    + rewrite FsCacheIndex_saveCache_outcome. cbv zeta.
      rewrite checkKey_ok by done. cbn [checkPaths length Nat.eqb ret outcome fst].
      rewrite Hres, Hmk. fold c. fold folder. fold archive.
      by rewrite Hbody.
    + unfold FsCacheIndex.saveCache.
      rewrite checkPaths_cons, bind_ret_l, checkKey_ok, bind_ret_l by done.
      cbv zeta. fold c. fold folder. fold archive.
      rewrite (trace_bind_of_ok _ _ _ Hres'), !trace_bind_emit.
      cbn [length Nat.eqb]. rewrite bind_ret_l.
      rewrite (trace_bind_of_ok _ _ _ Hmk'), !trace_bind_emit.
      rewrite trace_try_finally, Hbody.
      pose proof (calls_cleanup env archive
                    (λ error, "Failed to delete archive: " +:+ errToString error))
        as Hclean.
      set (cleanup := try_catch (unlinkFile env archive) _) in *.
      unfold resolvePaths, mkdir, call, trace at 1 2 3. cbn [snd try_catch].
      calls_norm. rewrite Hclean.
      unfold debug. by destruct (isDebug env).
  - intros folder archive Hmk Htar Hread.
    assert (outcome (mkdir env folder) = Ok ()) as Hmk' by exact Hmk.
    pose proof (FsCacheKeyed_saveBody_success env folder archive
                  (q :: cachePaths) c size Htar Hread) as Hbody.
    split.
    + rewrite FsCacheKeyed_saveCache_outcome. cbv zeta.
      rewrite checkKey_ok by done. cbn [checkPaths length Nat.eqb ret outcome fst].
      rewrite Hres. fold c. fold folder. fold archive. rewrite Hmk.
      by rewrite Hbody.
    + unfold FsCacheKeyed.saveCache.
      rewrite checkPaths_cons, bind_ret_l, checkKey_ok, bind_ret_l by done.
      cbv zeta. fold c. fold folder. fold archive.
      rewrite (trace_bind_of_ok _ _ _ Hres'), !trace_bind_emit.
      cbn [length Nat.eqb]. rewrite bind_ret_l.
      rewrite (trace_bind_of_ok _ _ _ Hmk'), !trace_bind_emit.
      rewrite (trace_bind_of_ok _ _ _
                 (swallow_returns (unlinkFile env archive ;;;
                                   emit (Debug "Deleted existing tar")))).
      rewrite trace_try_finally, Hbody.
      pose proof (calls_cleanup env (path_join env [folder; "manifest.txt"])
                    (λ error, "Failed to delete manifest: " +:+ errToString error))
        as Hclean.
      pose proof (calls_delete_existing env archive) as Hold.
      set (cleanup := try_catch (unlinkFile env (path_join env _)) _) in *.
      set (old := try_catch (unlinkFile env archive ;;; _) _) in *.
      unfold resolvePaths, mkdir, call, trace at 1 2 4. cbn [snd try_catch].
      calls_norm. rewrite Hclean, Hold.
      unfold debug. by destruct (isDebug env).
Qed.

Lemma saveCache_success_witness :
  outcome (FsCacheIndex.saveCache quiet_env ["target"] "k" false) = Ok 1
  ∧ calls (trace (FsCacheKeyed.saveCache quiet_env ["target"] "k" false))
    = [ResolvePaths ["target"];
       Mkdir "/runner/rust_cache/cache/acme/app/target|zstd|1.0/k";
       Unlink "/runner/rust_cache/cache/acme/app/target|zstd|1.0/k/cache.tzst";
       CreateTar "/runner/rust_cache/cache/acme/app/target|zstd|1.0/k"
         ["target"];
       FileSize "/runner/rust_cache/cache/acme/app/target|zstd|1.0/k/cache.tzst";
       Unlink "/runner/rust_cache/cache/acme/app/target|zstd|1.0/k/manifest.txt"].
Proof.
  destruct (saveCache_success quiet_env ["target"] "k" false ["target"]
              3145728) as [Hindex Hkeyed];
    [done|by split; [simpl; lia|]|reflexivity|done|].
  split.
  - apply Hindex; [reflexivity|reflexivity|].
    split; [intros Hd; discriminate Hd|reflexivity].
  - destruct Hkeyed as [_ Hcalls]; [reflexivity|reflexivity| |].
    + split; [intros Hd; discriminate Hd|reflexivity].
    + rewrite Hcalls. vm_compute. reflexivity.
Defined.

(** ** The platform and the fingerprint *)

(** X10. The cross-OS flag and the platform.  With [enableCrossOsArchive]
    set, the text hashed is the one a runner that is not on Windows hashes,
    whatever the platform; so off Windows the flag changes neither
    [getCacheVersion] nor [getPrefix].  On Windows with the flag unset the
    text differs from that with the flag set (the component
    ["windows-only"]), hence so does the fingerprint unless the hash
    collides on the two texts. *)
Theorem cross_os_flag
    (env : Env) (paths : list string) (c : option CompressionMethod) :
  (∀ env' cross',
     is_win32 env' = false →
     versionInput env paths c true = versionInput env' paths c cross')
  ∧ (is_win32 env = false →
     getCacheVersion env paths c true = getCacheVersion env paths c false
     ∧ ∀ cm, getPrefix env paths cm true = getPrefix env paths cm false)
  ∧ (is_win32 env = true →
     versionInput env paths c false ≠ versionInput env paths c true
     ∧ (no_collision env (versionInput env paths c false)
          (versionInput env paths c true) →
        getCacheVersion env paths c false ≠ getCacheVersion env paths c true)).
Proof.
  split; [|split].
  - intros env' cross' Hwin. unfold versionInput, versionComponents.
    rewrite Hwin. by rewrite andb_false_r.
  - intros Hwin. unfold getPrefix, getCacheVersion, versionInput,
      versionComponents. by rewrite Hwin.
  - intros Hwin.
    assert (versionInput env paths c false ≠ versionInput env paths c true)
      as Hne.
    { unfold versionInput. rewrite !versionComponents_tail.
      assert (join "|" (versionTail env c false)
              ≠ join "|" (versionTail env c true)) as Htail.
      { unfold versionTail, versionComponents. rewrite Hwin.
        by destruct c as [[]|]. }
      intros H. destruct paths as [|p paths]; [done|].
      rewrite !(join_app "|" (p :: paths)) in H
        by (done || apply versionTail_nonempty).
      by do 2 apply append_inv_head in H. }
    split; [exact Hne|]. intros Hcol Heq. apply Hne, Hcol. exact Heq.
Qed.

Lemma cross_os_flag_witness :
  versionInput windows_env ["target"] (Some Zstd) true
  = versionInput quiet_env ["target"] (Some Zstd) false
  ∧ getCacheVersion windows_env ["target"] (Some Zstd) false
    ≠ getCacheVersion windows_env ["target"] (Some Zstd) true.
Proof.
  destruct (cross_os_flag windows_env ["target"] (Some Zstd))
    as (Hshared & _ & Hwin).
  split.
  - apply Hshared. reflexivity.
  - destruct Hwin as [_ Hdiff]; [reflexivity|].
    apply Hdiff. intros H. exact H.
Defined.

(** X11. For a fixed compression method, any two different path lists in
    which no path contains [|] are hashed as different texts, be they of
    the same length or not, and so get different fingerprints unless the hash
    collides on the two texts. *)
Theorem fingerprint_separates_path_lists
    (env : Env) (paths paths' : list string)
    (c : option CompressionMethod) (cross : bool) :
  Forall bar_free paths → Forall bar_free paths' → paths ≠ paths' →
  fingerprints_differ env paths c paths' c cross.
Proof.
  intros Hp Hp' Hne. apply fingerprints_differ_intro.
  by apply versionInput_bar_free.
Qed.

Lemma fingerprint_separates_path_lists_witness :
  getCacheVersion quiet_env ["target"] (Some Zstd) false
  ≠ getCacheVersion quiet_env ["target"; "~/.cargo"] (Some Zstd) false.
Proof.
  apply (fingerprint_separates_path_lists quiet_env ["target"]
           ["target"; "~/.cargo"] (Some Zstd) false).
  - repeat constructor.
  - repeat constructor.
  - done.
  - intros H. exact H.
Defined.

(** ** The child [getCacheEntry] takes, exactly *)

Lemma Array_sort_head_first_least (m : string → Z) files child :
  Array_sort (λ a b, m a - m b) files !! 0%nat = Some child →
  first_least_recent m files child.
Proof.
  revert child. induction files as [|x l IH]; intros child; [done|].
  cbn [Array_sort foldr]. fold (Array_sort (λ a b, m a - m b) l).
  destruct (Array_sort (λ a b, m a - m b) l) as [|y s] eqn:Hs.
  - assert (l = []) as ->.
    { apply (f_equal length) in Hs.
      rewrite (Permutation_length (Array_sort_perm _ l)) in Hs.
      by destruct l. }
    intros [= <-]. exists [], []. split; [done|].
    split; intros f Hf; by apply elem_of_nil in Hf.
  - destruct (IH y eq_refl) as (before & after & -> & Hb & Ha).
    cbn [sort_insert]. destruct (Z.leb_spec (m x - m y) 0) as [Hle|Hgt].
    + intros [= <-]. exists [], (before ++ y :: after). split; [done|].
      split; [intros f Hf; by apply elem_of_nil in Hf|].
      intros f Hf. apply elem_of_app in Hf as [Hf|Hf].
      * specialize (Hb f Hf). lia.
      * apply elem_of_cons in Hf as [->|Hf]; [lia|].
        specialize (Ha f Hf). lia.
    + intros [= <-]. exists (x :: before), after. split; [done|].
      split; [|exact Ha].
      intros f Hf. apply elem_of_cons in Hf as [->|Hf]; [lia|]. by apply Hb.
Qed.

(** X12. Which child [getCacheEntry] of [src/fsCache/index.ts] answers with.
    When the keys before [key] yield nothing, the directory of [key] lists
    [files], and the sort of [files] comes through (a single child, or
    [statSync] succeeding on every child), the entry returned is located in
    that directory and its [cacheKey] is the child with the smallest
    modification time; when several children share that time, it is the one
    listed first. *)
Theorem getCacheEntry_takes_first_least_recent
    (env : Env) (paths : list string) (c : CompressionMethod) (cross : bool)
    (pre : list string) (key : string) (post files : list string) :
  (∀ k, k ∈ pre →
        entry_yields env (FsCacheIndex.restoreDirOf env paths c cross k) = false) →
  readdir_result env (FsCacheIndex.restoreDirOf env paths c cross key)
  = Ok files →
  files ≠ [] →
  sortable env (FsCacheIndex.restoreDirOf env paths c cross key) files = true →
  let dir := FsCacheIndex.restoreDirOf env paths c cross key in
  ∃ child,
    outcome (FsCacheIndex.getCacheEntry env (pre ++ key :: post) paths c cross)
    = Ok (Some {| cacheKey := child; archiveLocation := dir |})
    ∧ first_least_recent (λ f, mtimeMs env (join "/" [dir; f])) files child.
Proof.
  intros Hpre Hfiles Hne Hs dir.
  destruct (Array_sort_head (mtimeOrder env dir) files Hne)
    as (child & Hhd & _).
  exists child. split.
  - rewrite (FsCacheIndex_getCacheEntry_first_match_entry
               env paths c cross pre key post files Hpre Hfiles Hne Hs).
    fold dir. unfold chosen_child. by rewrite Hhd.
  - by apply (Array_sort_head_first_least
                (λ f, mtimeMs env (join "/" [dir; f]))).
Qed.

Lemma getCacheEntry_takes_first_least_recent_witness :
  ∃ child,
    outcome (FsCacheIndex.getCacheEntry tie_env ["k"] ["target"] Zstd false)
    = Ok (Some {| cacheKey := child;
                  archiveLocation :=
                    FsCacheIndex.restoreDirOf tie_env ["target"] Zstd false
                      "k" |})
    ∧ first_least_recent
        (λ f, mtimeMs tie_env
                (join "/" [FsCacheIndex.restoreDirOf tie_env ["target"] Zstd
                             false "k"; f]))
        ["c"; "a"; "b"] child.
Proof.
  apply (getCacheEntry_takes_first_least_recent tie_env ["target"] Zstd false
           [] "k" [] ["c"; "a"; "b"]).
  - intros k Hk. by apply elem_of_nil in Hk.
  - vm_compute. reflexivity.
  - done.
  - vm_compute. reflexivity.
Defined.

(** ** What a reported hit stands for *)

Lemma FsCacheKeyed_getRestoreKey_sound env paths c cross keys key :
  outcome (FsCacheKeyed.getRestoreKey env keys paths c cross) = Ok (Some key) →
  key ∈ keys
  ∧ listing_yields env (FsCacheKeyed.restoreDirOf env paths c cross key) = true.
Proof.
  induction keys as [|k keys IH]; [done|].
  destruct (listing_yields env (FsCacheKeyed.restoreDirOf env paths c cross k))
    eqn:Hk.
  - destruct (FsCacheKeyed_getRestoreKey_hit env k keys paths c cross Hk)
      as [-> _].
    intros [= <-]. split; [by left|done].
  - destruct (FsCacheKeyed_getRestoreKey_miss env k keys paths c cross Hk)
      as [-> _].
    intros H. destruct (IH H) as [Hin Hy]. split; [by right|done].
Qed.

Lemma FsCacheIndex_getCacheEntry_sound env paths c cross keys entry :
  outcome (FsCacheIndex.getCacheEntry env keys paths c cross)
  = Ok (Some entry) →
  ∃ key files,
    key ∈ keys
    ∧ readdir_result env (FsCacheIndex.restoreDirOf env paths c cross key)
      = Ok files
    ∧ cacheKey entry ∈ files
    ∧ archiveLocation entry = FsCacheIndex.restoreDirOf env paths c cross key.
Proof.
  induction keys as [|k keys IH]; [done|].
  destruct (entry_yields env (FsCacheIndex.restoreDirOf env paths c cross k))
    eqn:Hk.
  - destruct (entry_yields_true _ _ Hk) as (files & Hfiles & Hne & Hs).
    destruct (FsCacheIndex_getCacheEntry_hit env k keys paths c cross files
                Hfiles Hne Hs) as [-> _].
    intros [= <-]. exists k, files. cbn [cacheKey archiveLocation].
    split; [by left|]. split; [done|]. split; [|done].
    unfold chosen_child.
    destruct (Array_sort_head
                (mtimeOrder env
                   (FsCacheIndex.restoreDirOf env paths c cross k))
                files Hne) as (child & -> & Hin).
    done.
  - destruct (FsCacheIndex_getCacheEntry_skip env k keys paths c cross Hk)
      as [-> _].
    intros H. destruct (IH H) as (key & files & Hin & Hrest).
    exists key, files. split; [by right|done].
Qed.

(** X13. What a value returned by [restoreCache] stands for.  In the second
    variant a returned key is one of the caller's keys, its directory lists at
    least one child, and [extractTar] has succeeded on the archive file of
    that key.  In [src/fsCache/index.ts] the returned name is a child listed
    in the directory of one of the caller's keys, and [extractTar] has
    succeeded on that child. *)
Theorem restoreCache_hit_is_sound
    (env : Env) (paths : list string) (primaryKey : string)
    (restoreKeys : option (list string)) (cross : bool) (returned : string) :
  let keys := primaryKey :: default [] restoreKeys in
  let c := getCompressionMethod env in
  (outcome (FsCacheKeyed.restoreCache env paths primaryKey restoreKeys cross)
   = Ok (Some returned) →
   returned ∈ keys
   ∧ listing_yields env (FsCacheKeyed.restoreDirOf env paths c cross returned)
     = true
   ∧ extractTar_result env
       (path_join env [FsCacheKeyed.restoreDirOf env paths c cross returned;
                       getCacheFileName env c]) c = Ok ())
  ∧ (outcome (FsCacheIndex.restoreCache env paths primaryKey restoreKeys cross)
     = Ok (Some returned) →
     ∃ key files,
       key ∈ keys
       ∧ readdir_result env (FsCacheIndex.restoreDirOf env paths c cross key)
         = Ok files
       ∧ returned ∈ files
       ∧ extractTar_result env
           (join "/" [FsCacheIndex.restoreDirOf env paths c cross key;
                      returned]) c = Ok ()).
Proof.
  intros keys c. split.
  - unfold FsCacheKeyed.restoreCache. fold keys. fold c. intros H.
    repeat (apply outcome_bind_ok in H as (? & _ & H)).
    apply outcome_try_catch_ok in H as [H|(e & _ & H)].
    2:{ destruct (name_is e ValidationError_name); [done|].
        by rewrite outcome_bind_emit in H. }
    unfold FsCacheKeyed.restoreBody in H.
    apply outcome_bind_ok in H as (found & Hfound & H).
    rewrite outcome_bind_emit in H.
    destruct found as [restoreKey|]; [|done].
    cbv zeta in H. rewrite outcome_bind_emit in H.
    apply outcome_bind_ok in H as (? & _ & H).
    apply outcome_bind_ok in H as (size & _ & H).
    rewrite outcome_bind_emit in H.
    apply outcome_bind_ok in H as ([] & Hextract & H).
    rewrite outcome_bind_emit in H. injection H as ->.
    apply FsCacheKeyed_getRestoreKey_sound in Hfound as [Hin Hyields].
    split; [done|]. split; [done|]. exact Hextract.
  - unfold FsCacheIndex.restoreCache. fold keys. fold c. intros H.
    repeat (apply outcome_bind_ok in H as (? & _ & H)).
    apply outcome_try_catch_ok in H as [H|(e & _ & H)].
    2:{ destruct (name_is e ValidationError_name); [done|].
        by rewrite outcome_bind_emit in H. }
    unfold FsCacheIndex.restoreBody in H.
    apply outcome_bind_ok in H as (found & Hfound & H).
    destruct found as [entry|]; [|done].
    cbv zeta in H. rewrite outcome_bind_emit in H.
    apply outcome_bind_ok in H as (? & _ & H).
    apply outcome_bind_ok in H as (size & _ & H).
    rewrite outcome_bind_emit in H.
    apply outcome_bind_ok in H as ([] & Hextract & H).
    rewrite outcome_bind_emit in H. injection H as <-.
    apply FsCacheIndex_getCacheEntry_sound in Hfound
      as (key & files & Hin & Hfiles & Hchild & Hloc).
    exists key, files. split; [done|]. split; [done|]. split; [done|].
    rewrite <- Hloc. exact Hextract.
Qed.

Lemma restoreCache_hit_is_sound_witness :
  ("k" : string) ∈ ["k0"; "k"; "k2"]
  ∧ listing_yields one_archive_env
      (FsCacheKeyed.restoreDirOf one_archive_env ["target"] Zstd false "k")
    = true.
Proof.
  destruct (restoreCache_hit_is_sound one_archive_env ["target"] "k0"
              (Some ["k"; "k2"]) false "k") as [Hkeyed _].
  destruct Hkeyed as (Hin & Hyields & _); [vm_compute; reflexivity|].
  split; [exact Hin|exact Hyields].
Defined.

(** ** Which [ValidationError] *)

Lemma for_of_checkKey_first_bad pre key post :
  Forall key_ok pre →
  for_of (pre ++ key :: post) checkKey
  = bind (checkKey key) (λ _, for_of post checkKey).
Proof.
  induction 1 as [|k pre Hk _ IH]; [done|].
  rewrite <- app_comm_cons. cbn [for_of].
  by rewrite checkKey_ok, bind_ret_l.
Qed.

(** X14. The checks run in a fixed order and the first that fails decides
    the error.  [checkKey] tests the length before the comma, so a key that is
    too long is reported as too long even when it also holds a comma.
    [restoreCache] reports an empty path list first, then a list of more
    than 10 keys, then the first key, in the caller's order, that fails
    [checkKey]; [saveCache] reports an empty path list before a bad key.
    Each error is a [ValidationError] with the message of its check. *)
Theorem validation_order
    (env : Env) (paths : list string) (key primaryKey : string)
    (restoreKeys : option (list string)) (cross : bool) :
  let keys := primaryKey :: default [] restoreKeys in
  ((512 < String.length key)%nat →
     checkKey key = throw (ValidationError (key_too_long_message key)))
  ∧ ((String.length key ≤ 512)%nat → occursb comma key = true →
     checkKey key = throw (ValidationError (key_with_comma_message key)))
  ∧ (paths = [] →
     outcome (FsCacheIndex.restoreCache env paths primaryKey restoreKeys cross)
     = Throw (ValidationError no_path_message)
     ∧ outcome (FsCacheKeyed.restoreCache env paths primaryKey restoreKeys cross)
       = Throw (ValidationError no_path_message)
     ∧ outcome (FsCacheIndex.saveCache env paths key cross)
       = Throw (ValidationError no_path_message)
     ∧ outcome (FsCacheKeyed.saveCache env paths key cross)
       = Throw (ValidationError no_path_message))
  ∧ (paths ≠ [] → (10 < length keys)%nat →
     outcome (FsCacheIndex.restoreCache env paths primaryKey restoreKeys cross)
     = Throw (ValidationError too_many_keys_message)
     ∧ outcome (FsCacheKeyed.restoreCache env paths primaryKey restoreKeys cross)
       = Throw (ValidationError too_many_keys_message))
  ∧ (paths ≠ [] → (length keys ≤ 10)%nat →
     ∀ pre bad post,
       keys = pre ++ bad :: post → Forall key_ok pre → ¬ key_ok bad →
       ∃ e,
         outcome (checkKey bad) = Throw e
         ∧ outcome (FsCacheIndex.restoreCache env paths primaryKey restoreKeys
                      cross) = Throw e
         ∧ outcome (FsCacheKeyed.restoreCache env paths primaryKey restoreKeys
                      cross) = Throw e)
  ∧ (paths ≠ [] → ¬ key_ok key →
     ∃ e,
       outcome (checkKey key) = Throw e
       ∧ outcome (FsCacheIndex.saveCache env paths key cross) = Throw e
       ∧ outcome (FsCacheKeyed.saveCache env paths key cross) = Throw e).
Proof.
  intros keys. split; [|split; [|split; [|split; [|split]]]].
  - intros Hlen. unfold checkKey.
    by destruct (Nat.ltb_spec 512 (String.length key)); [|lia].
  - intros Hlen Hc. unfold checkKey.
    destruct (Nat.ltb_spec 512 (String.length key)); [lia|].
    by rewrite regex_no_comma_test_occursb, Hc.
  - by intros ->.
  - intros Hp Hl. destruct paths as [|p paths]; [done|].
    unfold FsCacheIndex.restoreCache, FsCacheKeyed.restoreCache. fold keys.
    rewrite !checkPaths_cons, !bind_ret_l, !outcome_bind_emit.
    by destruct (Nat.ltb_spec 10 (length keys)); [|lia].
  - intros Hp Hl pre bad post Hkeys Hpre Hbad.
    destruct paths as [|p paths]; [done|].
    destruct (checkKey_not_ok bad Hbad) as [m Hm].
    unfold FsCacheIndex.restoreCache, FsCacheKeyed.restoreCache. fold keys.
    rewrite !checkPaths_cons, !bind_ret_l, !outcome_bind_emit.
    destruct (Nat.ltb_spec 10 (length keys)); [lia|].
    rewrite !bind_ret_l, Hkeys, for_of_checkKey_first_bad by done.
    rewrite Hm. by eexists.
  - intros Hp Hbad. destruct paths as [|p paths]; [done|].
    destruct (checkKey_not_ok key Hbad) as [m Hm].
    unfold FsCacheIndex.saveCache, FsCacheKeyed.saveCache.
    rewrite !checkPaths_cons, !bind_ret_l. rewrite Hm. by eexists.
Qed.

Lemma validation_order_witness :
  checkKey (repeat_char "," 513)
  = throw (ValidationError (key_too_long_message (repeat_char "," 513)))
  ∧ outcome (FsCacheKeyed.restoreCache quiet_env ["target"] "k"
               (Some ["a,b"; repeat_char "x" 513]) false)
    = Throw (ValidationError (key_with_comma_message "a,b"))
  ∧ outcome (FsCacheIndex.saveCache quiet_env [] "a,b" false)
    = Throw (ValidationError no_path_message).
Proof.
  split; [|split].
  - destruct (validation_order quiet_env ["target"] (repeat_char "," 513)
                "k" None false) as (Hlong & _).
    apply Hlong. apply Nat.ltb_lt. vm_compute. reflexivity.
  - destruct (validation_order quiet_env ["target"] "k" "k"
                (Some ["a,b"; repeat_char "x" 513]) false)
      as (_ & _ & _ & _ & Hfirst & _).
    destruct (Hfirst ltac:(done) ltac:(simpl; lia) ["k"] "a,b"
                [repeat_char "x" 513]) as (e & He & _ & ->).
    + reflexivity.
    + constructor; [split; [simpl; lia|reflexivity]|constructor].
    + intros [_ Hc]. discriminate Hc.
    + by injection He as <-.
  - destruct (validation_order quiet_env [] "a,b" "k" None false)
      as (_ & _ & Hnone & _).
    apply Hnone. reflexivity.
Defined.

(** ** The layout *)

Lemma append_eq_length_r (a a' b b' : string) :
  a +:+ b = a' +:+ b' → String.length b = String.length b' →
  a = a' ∧ b = b'.
Proof.
  revert a'. induction a as [|x a IH]; intros [|x' a'] H Hlen.
  - done.
  - change (EmptyString +:+ b) with b in H. rewrite H, append_cons in Hlen.
    cbn [String.length] in Hlen. rewrite length_append in Hlen. lia.
  - change (EmptyString +:+ b') with b' in H. rewrite <- H, append_cons in Hlen.
    cbn [String.length] in Hlen. rewrite length_append in Hlen. lia.
  - rewrite !append_cons in H. injection H as -> H.
    destruct (IH a' H Hlen) as [-> ->]. done.
Qed.

(** X15. The prefix keeps repositories and fingerprints apart.  When two
    calls of [getPrefix] give the same prefix, and the two digests have the
    same length (as hexadecimal digests of one hash have), the two calls were
    made for the same repository name and the same fingerprint.  So entries
    of different repositories, or of different fingerprints, never lie under
    one prefix. *)
Theorem getPrefix_separates
    (env env' : Env) (paths paths' : list string)
    (c c' : CompressionMethod) (cross cross' : bool) :
  String.length (getCacheVersion env paths (Some c) cross)
  = String.length (getCacheVersion env' paths' (Some c') cross') →
  getPrefix env paths c cross = getPrefix env' paths' c' cross' →
  or_empty (GITHUB_REPOSITORY env) = or_empty (GITHUB_REPOSITORY env')
  ∧ getCacheVersion env paths (Some c) cross
    = getCacheVersion env' paths' (Some c') cross'.
Proof.
  intros Hlen Heq. unfold getPrefix in Heq. cbv zeta in Heq.
  cbn [join] in Heq. do 2 apply append_inv_head in Heq.
  apply append_eq_length_r in Heq as [Hrepo Hrest].
  - split; [done|]. by apply append_inv_head in Hrest.
  - rewrite !length_append. by rewrite Hlen.
Qed.

Lemma getPrefix_separates_witness :
  or_empty (GITHUB_REPOSITORY windows_env)
  = or_empty (GITHUB_REPOSITORY quiet_env)
  ∧ getCacheVersion windows_env ["target"] (Some Zstd) true
    = getCacheVersion quiet_env ["target"] (Some Zstd) false.
Proof.
  apply (getPrefix_separates windows_env quiet_env ["target"] ["target"]
           Zstd Zstd true false); reflexivity.
Defined.

(** ** Clean-up after the guarded region *)

Lemma calls_cleanup_last env file (msg : thrown → string) (t : list event) :
  calls (t ++ trace (try_catch (unlinkFile env file)
                       (λ error, emit (Debug (msg error)))))
  = calls t ++ [Unlink file].
Proof. by rewrite calls_app, calls_cleanup. Qed.

(** X16. The clean-up always runs, and runs last.  Once [saveCache] has
    passed validation, resolved at least one path and created its directory,
    the last call it makes is [unlinkFile], on the archive in
    [src/fsCache/index.ts] and on the manifest in the second variant,
    whatever happened in between: packing succeeded, failed softly, or
    failed with an error that [saveCache] raises again. *)
Theorem saveCache_cleanup_runs_last
    (env : Env) (paths : list string) (key : string) (cross : bool)
    (cachePaths : list string) :
  let c := getCompressionMethod env in
  paths ≠ [] → key_ok key →
  resolvePaths_result env paths = Ok cachePaths → cachePaths ≠ [] →
  (let folder :=
     path_join env [FsCacheIndex.cacheDir env; getPrefix env paths c cross; key] in
   mkdir_result env (FsCacheIndex.cacheDir env) = Ok () →
   ∃ before,
     calls (trace (FsCacheIndex.saveCache env paths key cross))
     = before ++ [Unlink (path_join env [folder; getCacheFileName env c])])
  ∧ (let folder :=
       path_join env [FsCacheKeyed.cacheDir env; getPrefix env paths c cross; key] in
     mkdir_result env folder = Ok () →
     ∃ before,
       calls (trace (FsCacheKeyed.saveCache env paths key cross))
       = before ++ [Unlink (path_join env [folder; "manifest.txt"])]).
Proof.
  intros c Hp Hk Hres Hne.
  destruct paths as [|p paths]; [done|].
  destruct cachePaths as [|q cachePaths]; [done|].
  assert (outcome (resolvePaths env (p :: paths)) = Ok (q :: cachePaths))
    as Hres' by exact Hres.
  split.
  - intros folder Hmk.
    assert (outcome (mkdir env (FsCacheIndex.cacheDir env)) = Ok ()) as Hmk'
      by exact Hmk.
    unfold FsCacheIndex.saveCache.
    rewrite checkPaths_cons, bind_ret_l, checkKey_ok, bind_ret_l by done.
    cbv zeta. fold c. fold folder.
    rewrite (trace_bind_of_ok _ _ _ Hres'), !trace_bind_emit.
    cbn [length Nat.eqb]. rewrite bind_ret_l.
    rewrite (trace_bind_of_ok _ _ _ Hmk'), !trace_bind_emit.
    rewrite trace_try_finally.
    rewrite !app_comm_cons, !app_assoc.
    rewrite (calls_cleanup_last env _
               (λ error, "Failed to delete archive: " +:+ errToString error)).
    by eexists.
  - intros folder Hmk.
    assert (outcome (mkdir env folder) = Ok ()) as Hmk' by exact Hmk.
    unfold FsCacheKeyed.saveCache.
    rewrite checkPaths_cons, bind_ret_l, checkKey_ok, bind_ret_l by done.
    cbv zeta. fold c. fold folder.
    rewrite (trace_bind_of_ok _ _ _ Hres'), !trace_bind_emit.
    cbn [length Nat.eqb]. rewrite bind_ret_l.
    rewrite (trace_bind_of_ok _ _ _ Hmk'), !trace_bind_emit.
    rewrite (trace_bind_of_ok _ _ _
               (swallow_returns
                  (unlinkFile env
                     (path_join env [folder; getCacheFileName env c]) ;;;
                   emit (Debug "Deleted existing tar")))).
    rewrite trace_try_finally.
    rewrite !app_comm_cons, !app_assoc.
    rewrite (calls_cleanup_last env _
               (λ error, "Failed to delete manifest: " +:+ errToString error)).
    by eexists.
Qed.

Lemma saveCache_cleanup_runs_last_witness :
  ∃ before,
    calls (trace (FsCacheKeyed.saveCache
                    (failing_tar_env (ValidationError "bad input"))
                    ["target"] "k" false))
    = before
      ++ [Unlink "/runner/rust_cache/cache/acme/app/target|zstd|1.0/k/manifest.txt"].
Proof.
  destruct (saveCache_cleanup_runs_last
              (failing_tar_env (ValidationError "bad input"))
              ["target"] "k" false ["target"]) as [_ Hkeyed];
    [done|by split; [simpl; lia|]|reflexivity|done|].
  destruct Hkeyed as [before Hcalls]; [reflexivity|].
  exists before. rewrite Hcalls. reflexivity.
Defined.
